(** * DDoS detection by short/long window packet ratio (App.py)

    A shallow embedding of [inspect_ddos] and [print_and_send]: the Spark
    Streaming operators the script chains (window, filter, map, union,
    reduceByKey, join) are pure functions on the RDDs of a discretized
    stream, Python's integers are [Z], its floats are binary64 primitive
    floats, and an exception raised inside a lambda aborts the batch. *)

From Stdlib Require Import ZArith Floats Ascii.
From stdpp Require Import gmap strings list fin_maps.

Local Open Scope Z_scope.

(** ** Python values and exceptions *)

Module Py.

Inductive pyerr := OverflowError | ZeroDivisionError.

Inductive result (A : Type) : Type :=
| Ok (a : A)
| Raise (e : pyerr).
Arguments Ok {A} a.
Arguments Raise {A} e.

#[global] Instance result_bind : MBind result := λ A B k r,
  match r with
  | Ok a => k a
  | Raise e => Raise e
  end.

(** [float(z)] on an integer: the nearest double, ties to even;
    an integer that rounds past the largest double raises. *)
Definition float_of_int (z : Z) : result float :=
  match binary_normalize prec emax z 0 false with
  | S754_infinity _ => Raise OverflowError
  | sf => Ok (SF2Prim sf)
  end.

(** [x / y] with [x] a float and [y] an integer: a zero divisor raises,
    any other is coerced to a float (never to zero) and divides. *)
Definition truediv (x : float) (y : Z) : result float :=
  if decide (y = 0) then Raise ZeroDivisionError
  else fy ← float_of_int y; Ok (x / fy)%float.

(** [x * y] with [x] a float and [y] an integer; float multiplication
    itself never raises (it overflows to an infinity). *)
Definition mul (x : float) (y : Z) : result float :=
  fy ← float_of_int y; Ok (x * fy)%float.

(** [x > y] on floats. *)
Definition gt (x y : float) : bool := PrimFloat.ltb y x.

End Py.

Import Py.

(** ** The Spark operators used by the script *)

Module Spark.

(** An RDD is the list of its elements; a DStream yields one RDD per
    step of its slide duration, steps counted from 0 at the start of the
    streaming context (step [k] is the RDD of time [(k + 1) * slide]). *)
Definition DStream (A : Type) := nat → list A.

(** [ds.window(windowDuration, slideDuration)] over a parent that slides
    every [parent_slide] seconds: the RDD of step [k] is the union,
    oldest first, of the parent RDDs that fall in the trailing
    [windowDuration] seconds; before the stream is that old, of those
    that exist. *)
Definition window {A} (parent_slide windowDuration slideDuration : Z)
    (ds : DStream A) : DStream A := λ k,
  let n := Z.to_nat (windowDuration / parent_slide) in
  let s := Z.to_nat (slideDuration / parent_slide) in
  let last := ((k + 1) * s)%nat in
  concat (map ds (seq (last - n) (n `min` last))).

(** [rdd.reduceByKey(func)]: the first value met under a key is kept as
    it is, each further value is merged into it with [func]; a key with a
    single value never goes through [func]. Spark merges the values of a
    key in an order and a grouping of its own; both lambdas of the script
    are associative and commutative, so the fold in RDD order stands for
    all of them. The result has one value per key: a finite map. *)
Definition mergeValue {V} (func : V → V → V)
    (d : gmap string V) (kv : string * V) : gmap string V :=
  <[kv.1 := match d !! kv.1 with
            | Some actual => func actual kv.2
            | None => kv.2
            end]> d.

Definition reduceByKey {V} (func : V → V → V)
    (rdd : list (string * V)) : gmap string V :=
  foldl (mergeValue func) ∅ rdd.

(** [a.join(b)] of two RDDs with one value per key. *)
Definition join {V W} (a : gmap string V) (b : gmap string W)
    : gmap string (V * W) :=
  merge (λ x y, match x, y with
                | Some v, Some w => Some (v, w)
                | _, _ => None
                end) a b.

(** [rdd.filter(p)] with a predicate that may raise: the first exception
    fails the job. *)
Fixpoint filterM {A} (p : A → result bool) (rdd : list A)
    : result (list A) :=
  match rdd with
  | [] => Ok []
  | x :: rest =>
      b ← p x;
      kept ← filterM p rest;
      Ok (if (b : bool) then x :: kept else kept)
  end.

(** A [for] loop building one entry per element, with a body that may
    raise. *)
Fixpoint mapM {A B} (f : A → result B) (l : list A) : result (list B) :=
  match l with
  | [] => Ok []
  | x :: rest =>
      y ← f x;
      ys ← mapM f rest;
      Ok (y :: ys)
  end.

End Spark.

Import Spark.

(** ** The records of the stream *)

(** An element of [filtered_stream_data]: a parsed flow with both of its
    addresses and its packet count, an integer. *)
Record flow := {
  sourceIPv4Address : string;
  destinationIPv4Address : string;
  packetDeltaCount : Z
}.

(** The value under a host in the short window:
    [(short_inc_packets, short_out_packets, short_source_IPv4s)]. *)
Record short_stats := {
  short_inc_packets : Z;
  short_out_packets : Z;
  short_source_IPv4s : gset string
}.

(** The value under a host in the long window. The lambda of
    [long_window_aggregated] builds a 2-tuple; a value that never met the
    lambda is still the 3-tuple of the short window. Only items 0 and 1 are
    read afterwards. *)
Inductive long_stats :=
| Tuple3 (s : short_stats)
| Tuple2 (long_inc_packets long_out_packets : Z).

Definition item0 (l : long_stats) : Z :=
  match l with
  | Tuple3 s => short_inc_packets s
  | Tuple2 i _ => i
  end.

Definition item1 (l : long_stats) : Z :=
  match l with
  | Tuple3 s => short_out_packets s
  | Tuple2 _ o => o
  end.

(** One entry of the JSON output of [print_and_send]. *)
Record alert := {
  dst_ip : string;
  shortratio : float;
  longratio : float;
  attackers : list string
}.

#[global] Instance short_stats_eq_dec : EqDecision short_stats.
Proof. solve_decision. Defined.

#[global] Instance long_stats_eq_dec : EqDecision long_stats.
Proof. solve_decision. Defined.

(** ** Method parameters ([__main__]) *)

Definition threshold : Z := 50.
Definition minimal_incoming : Z := 100000.
Definition long_window_length : Z := 7200.
Definition base_window_length : Z := 30.
Definition microbatch : Z := 1.

(** ** [inspect_ddos] *)

Section inspect_ddos.

(** [re.match(local_ip_pattern, address)] as a truth value. *)
Variable local_ip_pattern : string → bool.

Definition incoming_small_flows_stats (small_window : list flow)
    : list (string * short_stats) :=
  map (λ json_rdd,
         (destinationIPv4Address json_rdd,
          {| short_inc_packets := packetDeltaCount json_rdd;
             short_out_packets := 0;
             short_source_IPv4s := {[ sourceIPv4Address json_rdd ]} |}))
      (List.filter (λ json_rdd,
                      local_ip_pattern (destinationIPv4Address json_rdd))
                   small_window).

Definition outgoing_small_flows_stats (small_window : list flow)
    : list (string * short_stats) :=
  map (λ json_rdd,
         (sourceIPv4Address json_rdd,
          {| short_inc_packets := 0;
             short_out_packets := packetDeltaCount json_rdd;
             short_source_IPv4s := ∅ |}))
      (List.filter (λ json_rdd,
                      local_ip_pattern (sourceIPv4Address json_rdd))
                   small_window).

Definition short_merge (actual update : short_stats) : short_stats :=
  {| short_inc_packets := short_inc_packets actual + short_inc_packets update;
     short_out_packets := short_out_packets actual + short_out_packets update;
     short_source_IPv4s :=
       short_source_IPv4s actual ∪ short_source_IPv4s update |}.

Definition small_window_aggregated (small_window : list flow)
    : gmap string short_stats :=
  reduceByKey short_merge
    (incoming_small_flows_stats small_window
     ++ outgoing_small_flows_stats small_window).

Definition long_merge (actual update : long_stats) : long_stats :=
  Tuple2 (item0 actual + item0 update) (item1 actual + item1 update).

Definition long_window_aggregated
    (union_long_flows : list (string * short_stats))
    : gmap string long_stats :=
  reduceByKey long_merge (map (λ kv, (kv.1, Tuple3 kv.2)) union_long_flows).

Definition windows_union (short : gmap string short_stats)
    (long : gmap string long_stats)
    : gmap string (short_stats * long_stats) :=
  join short long.

Definition nonzero_union (short : gmap string short_stats)
    (long : gmap string long_stats)
    : gmap string (short_stats * long_stats) :=
  filter (λ rdd, short_out_packets rdd.2.1 ≠ 0 ∧ item1 rdd.2.2 ≠ 0)
         (windows_union short long).

(** The lambda of [windows_union_filtered]; [and] evaluates its right
    operand only when the left one holds. *)
Definition suspicious (rdd : string * (short_stats * long_stats))
    : result bool :=
  if minimal_incoming <? short_inc_packets rdd.2.1 then
    fs ← float_of_int (short_inc_packets rdd.2.1);
    short_ratio ← truediv fs (short_out_packets rdd.2.1);
    fl ← float_of_int (item0 rdd.2.2);
    long_ratio ← truediv fl (item1 rdd.2.2);
    scaled ← mul long_ratio threshold;
    Ok (gt short_ratio scaled)
  else Ok false.

Definition windows_union_filtered (short : gmap string short_stats)
    (long : gmap string long_stats)
    : result (list (string * (short_stats * long_stats))) :=
  filterM suspicious (map_to_list (nonzero_union short long)).

(** The stream, one RDD per microbatch of one second. [small_window] cuts
    it into base windows of [base_window_length] seconds,
    [union_long_flows] slides a window of [long_window_length] seconds over
    the aggregated base windows; for both, step [k] is the [k]-th base
    window. *)
Variable filtered_stream_data : DStream flow.

Definition small_window : DStream flow :=
  window microbatch base_window_length base_window_length
         filtered_stream_data.

Definition short_at (k : nat) : gmap string short_stats :=
  small_window_aggregated (small_window k).

Definition union_long_flows : DStream (string * short_stats) :=
  window base_window_length long_window_length base_window_length
         (λ j, map_to_list (short_at j)).

Definition long_at (k : nat) : gmap string long_stats :=
  long_window_aggregated (union_long_flows k).

Definition inspect_ddos (k : nat)
    : result (list (string * (short_stats * long_stats))) :=
  windows_union_filtered (short_at k) (long_at k).

End inspect_ddos.

(** ** [print_and_send] *)

(** The body of the loop. [list(stats[0][2])] lists the set in its own
    iteration order; the entry here lists it in the order of [elements],
    and statements about [attackers] are about membership and repetition
    only. *)
Definition new_entry (e : string * (short_stats * long_stats))
    : result alert :=
  let '(host, stats) := e in
  fs ← float_of_int (short_inc_packets stats.1);
  short_ratio ← truediv fs (short_out_packets stats.1);
  fl ← float_of_int (item0 stats.2);
  long_ratio ← truediv fl (item1 stats.2);
  Ok {| dst_ip := host;
        shortratio := short_ratio;
        longratio := long_ratio;
        attackers := elements (short_source_IPv4s stats.1) |}.

(** The entries of [results], one per host of [rdd.collectAsMap()]: a
    dictionary built from the pairs in turn, so that of two pairs with one
    key the later stays. The dictionary yields its hosts in an order of its
    own; the entries here come in the order of [map_to_list], and
    statements about them are up to that order. *)
Definition print_and_send (rdd : list (string * (short_stats * long_stats)))
    : result (list alert) :=
  let rdd_map : gmap string (short_stats * long_stats) :=
    list_to_map (reverse rdd) in
  mapM new_entry (map_to_list rdd_map).

(** The detector on one pair of mappings, and one tick of the job:
    [ddos_result.foreachRDD(print_and_send)]. *)
Definition detect (short : gmap string short_stats)
    (long : gmap string long_stats) : result (list alert) :=
  rdd ← windows_union_filtered short long;
  print_and_send rdd.

Definition tick (local_ip_pattern : string → bool)
    (filtered_stream_data : DStream flow) (k : nat) : result (list alert) :=
  rdd ← inspect_ddos local_ip_pattern filtered_stream_data k;
  print_and_send rdd.

(** ** Notions the statements use *)

(** The values an RDD holds under one key, in order, and their reduction. *)
Definition values_of {V} (h : string) (rdd : list (string * V)) : list V :=
  (filter (λ kv, kv.1 = h) rdd).*2.

Definition reduce1 {V} (func : V → V → V) (vs : list V) : option V :=
  match vs with
  | [] => None
  | v :: rest => Some (foldl func v rest)
  end.

Definition sumZ (l : list Z) : Z := foldr Z.add 0 l.

(** [float(i) / o], the ratio as the script computes it. *)
Definition ratio (i o : Z) : result float :=
  f ← float_of_int i; truediv f o.

(** Integers well inside the range of doubles: [float] converts them. *)
Definition in_double_range (z : Z) : Prop := Z.abs z < 2 ^ 1023.

#[global] Instance in_double_range_dec (z : Z) : Decision (in_double_range z).
Proof. unfold in_double_range. apply _. Defined.

(** Both mappings hold counts that convert to floats. *)
Definition counts_in_range (short : gmap string short_stats)
    (long : gmap string long_stats) : Prop :=
  map_Forall (λ _ s, in_double_range (short_inc_packets s)
                     ∧ in_double_range (short_out_packets s)) short
  ∧ map_Forall (λ _ l, in_double_range (item0 l)
                       ∧ in_double_range (item1 l)) long.

#[global] Instance counts_in_range_dec short long :
  Decision (counts_in_range short long).
Proof. unfold counts_in_range. apply _. Defined.

(** The base windows a long window covers at step [k]: the trailing
    [long_window_length / base_window_length] of them, fewer while the
    stream is younger than that. *)
Definition horizon : nat := Z.to_nat (long_window_length / base_window_length).

Definition horizon_intervals (k : nat) : list nat :=
  seq (k + 1 - horizon) (horizon `min` (k + 1)).

(** What the long window holds under a host: its tally of each base window
    of the horizon in which it has one. *)
Definition tallies_of (local_ip_pattern : string → bool)
    (filtered_stream_data : DStream flow) (h : string) (js : list nat)
    : list short_stats :=
  omap (λ j, short_at local_ip_pattern filtered_stream_data j !! h) js.

(** [sum(s[0] for s in mapping.values())]. *)
Definition sum_incoming (m : gmap string short_stats) : Z :=
  map_fold (λ _ s acc, short_inc_packets s + acc) 0 m.

(** The sources a mapping holds for a host; none for an absent host. *)
Definition sources_at (m : gmap string short_stats) (h : string)
    : gset string :=
  from_option short_source_IPv4s ∅ (m !! h).

(** ** Small inputs *)

Definition in_10_10 (address : string) : bool :=
  String.prefix "10.10." address.

Definition flow_of (src dst : string) (n : Z) : flow :=
  {| sourceIPv4Address := src; destinationIPv4Address := dst;
     packetDeltaCount := n |}.

(** ** A two-window run

    Base window 0 is the history of host 10.10.0.1; base window 1 brings a
    burst to it, a host that only receives, and nothing else. *)

Definition stream0 : DStream flow := λ i,
  match i with
  | 0%nat => [flow_of "10.10.0.1" "9.9.9.9" 1000000;
              flow_of "1.1.1.1" "10.10.0.1" 7000000]
  | 30%nat => [flow_of "8.8.8.8" "10.10.0.1" 150000;
               flow_of "10.10.0.1" "9.9.9.9" 100;
               flow_of "7.7.7.7" "10.10.0.1" 5;
               flow_of "6.6.6.6" "10.10.0.2" 200000]
  | _ => []
  end.

Definition short0 : gmap string short_stats :=
  short_at in_10_10 stream0 1.

Definition long0 : gmap string long_stats :=
  long_at in_10_10 stream0 1.

Definition burst0 : short_stats :=
  {| short_inc_packets := 150005; short_out_packets := 100;
     short_source_IPv4s := {[ "8.8.8.8"; "7.7.7.7" ]} |}.

Definition sink0 : short_stats :=
  {| short_inc_packets := 200000; short_out_packets := 0;
     short_source_IPv4s := {[ "6.6.6.6" ]} |}.

Definition alerts0 : list alert :=
  Eval vm_compute in
    match tick in_10_10 stream0 1 with
    | Ok alerts => alerts
    | Raise _ => []
    end.

Definition alert0 : alert :=
  Eval vm_compute in
    match alerts0 with
    | a :: _ => a
    | [] => {| dst_ip := EmptyString; shortratio := 0; longratio := 0;
               attackers := [] |}
    end.

(** A short mapping with a host the long mapping has never seen. *)
Definition short1 : gmap string short_stats :=
  <["10.10.0.3" := {| short_inc_packets := 200000; short_out_packets := 1;
                      short_source_IPv4s := {[ "6.6.6.6" ]} |}]>
    {[ "10.10.0.1" := burst0 ]}.

Definition long1 : gmap string long_stats :=
  <["10.10.0.4" := Tuple2 10 10]> {[ "10.10.0.1" := Tuple2 7000000 1000000 ]}.

Definition alerts1 : list alert :=
  Eval vm_compute in
    match detect short1 long1 with
    | Ok alerts => alerts
    | Raise _ => []
    end.

(** One flow in the first base window. *)
Definition stream_single : DStream flow := λ i,
  match i with
  | 0%nat => [flow_of "8.8.8.8" "10.10.0.1" 5]
  | _ => []
  end.


(** ** [send_to_kafka] and the message of [print_and_send] *)

(** The line feed of ["%s\n"]. *)
Definition newline : string := String "010"%char EmptyString.

(** Reading a message back: [has_newline] tells whether a string holds a
    line feed, [splitlines] cuts a string at its line feeds as Python's
    [str.splitlines] does for that separator. *)
Fixpoint has_newline (s : string) : bool :=
  match s with
  | EmptyString => false
  | String c rest => if Ascii.eqb c "010"%char then true else has_newline rest
  end.

Fixpoint splitlines_from (line : string) (s : string) : list string :=
  match s with
  | EmptyString => match line with EmptyString => [] | _ => [line] end
  | String c rest =>
      if Ascii.eqb c "010"%char then line :: splitlines_from EmptyString rest
      else splitlines_from (line +:+ String c EmptyString) rest
  end.

Definition splitlines (s : string) : list string :=
  splitlines_from EmptyString s.

(** [producer.send(topic, str(data))]: the producer is the list of the
    records sent so far, each with its topic. *)
Definition send_to_kafka (data : string) (producer : list (string * string))
    (topic : string) : list (string * string) :=
  producer ++ [(topic, data)].

Section emission.

(** [json.dumps(new_entry)], the encoder of the [ujson] library. *)
Variable dumps : alert → string.

(** [results] after the loop: each entry encoded and ended by a line
    feed. *)
Definition results_of (alerts : list alert) : string :=
  foldl (λ results new_entry, results +:+ (dumps new_entry +:+ newline))
        EmptyString alerts.

(** [print_and_send] with what it sends: the entries as before, then
    [results], which it also prints, goes as one record to the topic. An
    entry that cannot be built raises before anything is sent. *)
Definition print_and_send_kafka
    (rdd : list (string * (short_stats * long_stats)))
    (producer : list (string * string)) (topic : string)
    : result (list (string * string)) :=
  alerts ← print_and_send rdd;
  Ok (send_to_kafka (results_of alerts) producer topic).

End emission.

(** ** More notions and inputs for the statements *)

(** A float that is not negative (or is not a number). *)
Definition nonneg_sf (x : spec_float) : Prop :=
  match x with
  | S754_nan => True
  | S754_zero s | S754_infinity s | S754_finite s _ _ => s = false
  end.

(** [stream0] with the flows of each microbatch in another order. *)
Definition stream0_shuffled : DStream flow := λ i,
  match i with
  | 0%nat => [flow_of "1.1.1.1" "10.10.0.1" 7000000;
              flow_of "10.10.0.1" "9.9.9.9" 1000000]
  | 30%nat => [flow_of "6.6.6.6" "10.10.0.2" 200000;
               flow_of "7.7.7.7" "10.10.0.1" 5;
               flow_of "10.10.0.1" "9.9.9.9" 100;
               flow_of "8.8.8.8" "10.10.0.1" 150000]
  | _ => []
  end.

(** A burst to a host seen for the first time, in base window 1. *)
Definition stream_lone : DStream flow := λ i,
  match i with
  | 30%nat => [flow_of "8.8.8.8" "10.10.0.1" 150000;
               flow_of "10.10.0.1" "9.9.9.9" 100]
  | _ => []
  end.

(** An encoder that writes the host of an entry, on one line. *)
Definition dumps_host (a : alert) : string :=
  if has_newline (dst_ip a) then EmptyString else dst_ip a.

Definition rdd1 : list (string * (short_stats * long_stats)) :=
  [("10.10.0.1", (burst0, Tuple2 7000000 1000000))].

(** [short1] and [long1] with one more host, whose packets in are past the
    range of doubles. *)
Definition short_huge : gmap string short_stats :=
  <["10.10.0.9" := {| short_inc_packets := 2 ^ 1024; short_out_packets := 1;
                      short_source_IPv4s := ∅ |}]> short1.

Definition long_huge : gmap string long_stats :=
  <["10.10.0.9" := Tuple2 1 1]> long1.

(** [stream0] with one more host in base window 1, which takes more
    packets in than a double can hold. *)
Definition stream_overflow : DStream flow := λ i,
  match i with
  | 0%nat => [flow_of "10.10.0.1" "9.9.9.9" 1000000;
              flow_of "1.1.1.1" "10.10.0.1" 7000000]
  | 30%nat => [flow_of "8.8.8.8" "10.10.0.1" 150000;
               flow_of "10.10.0.1" "9.9.9.9" 100;
               flow_of "7.7.7.7" "10.10.0.1" 5;
               flow_of "5.5.5.5" "10.10.0.9" (2 ^ 1024);
               flow_of "10.10.0.9" "5.5.5.5" 1]
  | _ => []
  end.

(** Two entries that differ at most in the order of their attackers, and
    two outcomes of a tick that differ at most in the order of their
    entries and of the attackers in them. *)
Definition same_alert (a b : alert) : Prop :=
  dst_ip a = dst_ip b ∧ shortratio a = shortratio b
  ∧ longratio a = longratio b ∧ attackers a ≡ₚ attackers b.

Definition same_outcome (r1 r2 : result (list alert)) : Prop :=
  match r1, r2 with
  | Ok alerts1, Ok alerts2 =>
      ∃ alerts2', alerts2 ≡ₚ alerts2' ∧ Forall2 same_alert alerts1 alerts2'
  | Raise e1, Raise e2 => e1 = e2
  | _, _ => False
  end.

(** ** Lemmas on the exception monad and the Spark operators *)

Section result_lemmas.
Context {A B : Type}.

Lemma bind_Ok (r : result A) (k : A → result B) (b : B) :
  r ≫= k = Ok b ↔ ∃ a, r = Ok a ∧ k a = Ok b.
Proof.
  destruct r as [a|e]; simpl; split.
  - intros H. exists a. auto.
  - intros (a' & Ha & Hk). inversion Ha. subst. exact Hk.
  - discriminate.
  - intros (a' & Ha & _). discriminate.
Qed.

Lemma bind_Raise (r : result A) (k : A → result B) (e : pyerr) :
  r ≫= k = Raise e ↔ r = Raise e ∨ ∃ a, r = Ok a ∧ k a = Raise e.
Proof.
  destruct r as [a|e']; simpl; split.
  - intros H. right. exists a. auto.
  - intros [H | (a' & Ha & Hk)]; [discriminate|].
    inversion Ha. subst. exact Hk.
  - intros H. left. congruence.
  - intros [H | (a' & Ha & _)]; [congruence | discriminate].
Qed.

End result_lemmas.

Section operator_lemmas.
Context {A B : Type}.

Lemma filterM_Ok_elem (p : A → result bool) (l r : list A) :
  filterM p l = Ok r → ∀ x, x ∈ r ↔ x ∈ l ∧ p x = Ok true.
Proof.
  revert r. induction l as [|y l IH]; intros r H x; simpl in H.
  - inversion H. subst. split; [intros Hx | intros [Hx _]];
      by apply elem_of_nil in Hx.
  - apply bind_Ok in H as (b & Hb & H).
    apply bind_Ok in H as (kept & Hkept & H).
    inversion H. subst r. clear H.
    specialize (IH kept Hkept x). rewrite elem_of_cons.
    destruct b.
    + rewrite elem_of_cons, IH. split.
      * intros [-> | [? ?]]; auto.
      * intros [[-> | ?] ?]; auto.
    + rewrite IH. split.
      * intros [? ?]; auto.
      * intros [[-> | ?] ?]; [congruence | auto].
Qed.

Lemma filterM_Ok_sublist (p : A → result bool) (l r : list A) :
  filterM p l = Ok r → sublist r l.
Proof.
  revert r. induction l as [|y l IH]; intros r H; simpl in H.
  - inversion H. constructor.
  - apply bind_Ok in H as (b & Hb & H).
    apply bind_Ok in H as (kept & Hkept & H).
    inversion H. subst r. destruct b.
    + apply sublist_skip. auto.
    + apply sublist_cons. auto.
Qed.

Lemma filterM_Raise (p : A → result bool) (l : list A) (e : pyerr) :
  filterM p l = Raise e → ∃ x, x ∈ l ∧ p x = Raise e.
Proof.
  induction l as [|y l IH]; simpl; intros H; [discriminate|].
  apply bind_Raise in H as [H | (b & Hb & H)].
  - exists y. split; [apply list_elem_of_here | exact H].
  - apply bind_Raise in H as [H | (kept & _ & H)]; [|discriminate].
    destruct (IH H) as (x & Hx & Hp).
    exists x. split; [by apply list_elem_of_further | exact Hp].
Qed.

Lemma filterM_total (p : A → result bool) (l : list A) :
  (∀ x, x ∈ l → ∃ b, p x = Ok b) → ∃ r, filterM p l = Ok r.
Proof.
  induction l as [|x l IH]; intros H; simpl.
  - eexists. reflexivity.
  - destruct (H x) as (b & Hb); [apply list_elem_of_here|].
    destruct IH as (r & Hr).
    { intros x' Hx'. apply H. by apply list_elem_of_further. }
    rewrite Hb, Hr. simpl. eexists. reflexivity.
Qed.

Lemma mapM_Ok_elem (f : A → result B) (l : list A) (ys : list B) :
  mapM f l = Ok ys → ∀ y, y ∈ ys ↔ ∃ x, x ∈ l ∧ f x = Ok y.
Proof.
  revert ys. induction l as [|x l IH]; intros ys H y; simpl in H.
  - inversion H. subst. split.
    + intros Hy. by apply elem_of_nil in Hy.
    + intros (x & Hx & _). by apply elem_of_nil in Hx.
  - apply bind_Ok in H as (y0 & Hy0 & H).
    apply bind_Ok in H as (ys0 & Hys0 & H).
    inversion H. subst ys. clear H.
    rewrite elem_of_cons, (IH ys0 Hys0 y). split.
    + intros [-> | (x' & Hx' & Hf)].
      * exists x. split; [apply list_elem_of_here | exact Hy0].
      * exists x'. split; [by apply list_elem_of_further | exact Hf].
    + intros (x' & Hx' & Hf). apply elem_of_cons in Hx' as [-> | Hx'].
      * left. congruence.
      * right. exists x'. auto.
Qed.

Lemma mapM_total (f : A → result B) (l : list A) :
  (∀ x, x ∈ l → ∃ y, f x = Ok y) → ∃ ys, mapM f l = Ok ys.
Proof.
  induction l as [|x l IH]; intros H; simpl.
  - eexists. reflexivity.
  - destruct (H x) as (y & Hy); [apply list_elem_of_here|].
    destruct IH as (ys & Hys).
    { intros x' Hx'. apply H. by apply list_elem_of_further. }
    rewrite Hy, Hys. simpl. eexists. reflexivity.
Qed.

End operator_lemmas.

Section reduceByKey_lemmas.
Context {V : Type}.
Implicit Types (func : V → V → V) (rdd : list (string * V)) (h : string).

Lemma values_of_nil h : values_of (V:=V) h [] = [].
Proof. reflexivity. Qed.

Lemma values_of_cons h kv rdd :
  values_of h (kv :: rdd) =
    if decide (kv.1 = h) then kv.2 :: values_of h rdd else values_of h rdd.
Proof.
  unfold values_of. rewrite filter_cons. by destruct (decide (kv.1 = h)).
Qed.

Lemma values_of_app h rdd1 rdd2 :
  values_of h (rdd1 ++ rdd2) = values_of h rdd1 ++ values_of h rdd2.
Proof. unfold values_of. by rewrite filter_app, fmap_app. Qed.

Lemma elem_of_values_of h rdd v : v ∈ values_of h rdd ↔ (h, v) ∈ rdd.
Proof.
  unfold values_of. rewrite list_elem_of_fmap. split.
  - intros ([k v'] & -> & Hin). apply list_elem_of_filter in Hin as [Hk Hin].
    simpl in *. by subst.
  - intros Hin. exists (h, v). split; [done|].
    apply list_elem_of_filter. by split.
Qed.

Lemma foldl_mergeValue_lookup func d rdd h :
  foldl (mergeValue func) d rdd !! h =
    match d !! h with
    | Some a => Some (foldl func a (values_of h rdd))
    | None => reduce1 func (values_of h rdd)
    end.
Proof.
  revert d. induction rdd as [|[k v] rdd IH]; intros d; simpl.
  - by destruct (d !! h).
  - rewrite IH, values_of_cons. unfold mergeValue. simpl.
    destruct (decide (k = h)) as [->|Hne].
    + rewrite lookup_insert_eq. by destruct (d !! h).
    + by rewrite lookup_insert_ne.
Qed.

Lemma reduceByKey_lookup func rdd h :
  reduceByKey func rdd !! h = reduce1 func (values_of h rdd).
Proof.
  unfold reduceByKey. by rewrite foldl_mergeValue_lookup, lookup_empty.
Qed.

Lemma reduceByKey_lookup_None func rdd h :
  reduceByKey func rdd !! h = None ↔ values_of h rdd = [].
Proof.
  rewrite reduceByKey_lookup. by destruct (values_of h rdd).
Qed.

(** In an RDD with one value per key, a key holds what a lookup finds. *)
Lemma values_of_NoDup h rdd :
  NoDup rdd.*1 →
  values_of h rdd = match list_to_map (M:=gmap string V) rdd !! h with
                    | Some v => [v]
                    | None => []
                    end.
Proof.
  induction rdd as [|[k v] rdd IH]; intros Hnd; simpl.
  - by rewrite lookup_empty.
  - apply NoDup_cons in Hnd as [Hk Hnd]. rewrite values_of_cons. simpl.
    destruct (decide (k = h)) as [->|Hne].
    + rewrite lookup_insert_eq, (IH Hnd).
      rewrite (not_elem_of_list_to_map_1 rdd h Hk). done.
    + rewrite lookup_insert_ne by done. auto.
Qed.

Lemma values_of_map_to_list h (m : gmap string V) :
  values_of h (map_to_list m) = match m !! h with
                                | Some v => [v]
                                | None => []
                                end.
Proof.
  rewrite values_of_NoDup by apply NoDup_fst_map_to_list.
  by rewrite list_to_map_to_list.
Qed.

End reduceByKey_lemmas.

(** ** The short-window and long-window mappings *)

Lemma sumZ_cons (z : Z) (l : list Z) : sumZ (z :: l) = z + sumZ l.
Proof. reflexivity. Qed.

Lemma sumZ_app (l1 l2 : list Z) : sumZ (l1 ++ l2) = sumZ l1 + sumZ l2.
Proof.
  induction l1 as [|z l1 IH]; [reflexivity|].
  simpl app. rewrite !sumZ_cons. lia.
Qed.

Lemma sumZ_zero (l : list Z) : (∀ z, z ∈ l → z = 0) → sumZ l = 0.
Proof.
  induction l as [|z l IH]; intros H; [reflexivity|].
  rewrite sumZ_cons, (H z) by apply list_elem_of_here.
  rewrite IH; [reflexivity|]. intros z' Hz'. apply H.
  by apply list_elem_of_further.
Qed.

Lemma foldl_short_merge (v : short_stats) (vs : list short_stats) :
  short_inc_packets (foldl short_merge v vs)
    = short_inc_packets v + sumZ (short_inc_packets <$> vs)
  ∧ short_out_packets (foldl short_merge v vs)
    = short_out_packets v + sumZ (short_out_packets <$> vs)
  ∧ short_source_IPv4s (foldl short_merge v vs)
    = short_source_IPv4s v ∪ ⋃ (short_source_IPv4s <$> vs).
Proof.
  revert v. induction vs as [|u vs IH]; intros v.
  - simpl. unfold sumZ. simpl.
    split; [lia | split; [lia | by rewrite (right_id_L ∅ (∪))]].
  - destruct (IH (short_merge v u)) as (Hi & Ho & Hs).
    rewrite !fmap_cons, !sumZ_cons. simpl foldl. rewrite Hi, Ho, Hs. simpl.
    split; [lia | split; [lia | by rewrite (assoc_L (∪))]].
Qed.

Lemma reduce1_short_merge (vs : list short_stats) (s : short_stats) :
  reduce1 short_merge vs = Some s →
  short_inc_packets s = sumZ (short_inc_packets <$> vs)
  ∧ short_out_packets s = sumZ (short_out_packets <$> vs)
  ∧ short_source_IPv4s s = ⋃ (short_source_IPv4s <$> vs).
Proof.
  destruct vs as [|v vs]; simpl; [discriminate|].
  intros H. inversion H. subst s. apply foldl_short_merge.
Qed.

Lemma foldl_long_merge (v : long_stats) (vs : list long_stats) :
  item0 (foldl long_merge v vs) = item0 v + sumZ (item0 <$> vs)
  ∧ item1 (foldl long_merge v vs) = item1 v + sumZ (item1 <$> vs).
Proof.
  revert v. induction vs as [|u vs IH]; intros v.
  - simpl. unfold sumZ. simpl. split; lia.
  - destruct (IH (long_merge v u)) as (H0 & H1).
    rewrite !fmap_cons, !sumZ_cons. simpl foldl. rewrite H0, H1. simpl.
    split; lia.
Qed.

Lemma reduce1_long_merge (vs : list long_stats) (l : long_stats) :
  reduce1 long_merge vs = Some l →
  item0 l = sumZ (item0 <$> vs) ∧ item1 l = sumZ (item1 <$> vs).
Proof.
  destruct vs as [|v vs]; simpl; [discriminate|].
  intros H. inversion H. subst l. apply foldl_long_merge.
Qed.

(** Which shape the reduced value has: a lone value is kept, two or more
    go through the lambda. *)
Lemma foldl_long_merge_shape (v u : long_stats) (vs : list long_stats) :
  ∃ i o, foldl long_merge v (u :: vs) = Tuple2 i o.
Proof.
  simpl. assert (H : ∃ i o, long_merge v u = Tuple2 i o) by (eexists _, _; reflexivity).
  revert H. generalize (long_merge v u).
  induction vs as [|x vs IH]; intros w H; simpl; [exact H|].
  apply IH. eexists _, _. reflexivity.
Qed.

(** Both lambdas merge in any order and grouping. *)
Lemma short_merge_assoc (a b c : short_stats) :
  short_merge a (short_merge b c) = short_merge (short_merge a b) c.
Proof.
  unfold short_merge. simpl.
  by rewrite !Z.add_assoc, (assoc_L (∪)).
Qed.

Lemma short_merge_comm (a b : short_stats) :
  short_merge a b = short_merge b a.
Proof.
  unfold short_merge.
  rewrite (Z.add_comm (short_inc_packets a)).
  rewrite (Z.add_comm (short_out_packets a)).
  by rewrite (comm_L (∪) (short_source_IPv4s a)).
Qed.

Lemma long_merge_assoc (a b c : long_stats) :
  long_merge a (long_merge b c) = long_merge (long_merge a b) c.
Proof. unfold long_merge. simpl. by rewrite !Z.add_assoc. Qed.

Lemma long_merge_comm (a b : long_stats) : long_merge a b = long_merge b a.
Proof.
  unfold long_merge.
  by rewrite (Z.add_comm (item0 a)), (Z.add_comm (item1 a)).
Qed.

Section short_window.
Variable local_ip_pattern : string → bool.

Local Abbreviation incoming := (incoming_small_flows_stats local_ip_pattern).
Local Abbreviation outgoing := (outgoing_small_flows_stats local_ip_pattern).
Local Abbreviation aggregated := (small_window_aggregated local_ip_pattern).

Lemma elem_of_incoming (w : list flow) (h : string) (v : short_stats) :
  (h, v) ∈ incoming w ↔
    ∃ r, r ∈ w ∧ local_ip_pattern (destinationIPv4Address r) = true
         ∧ destinationIPv4Address r = h
         ∧ v = {| short_inc_packets := packetDeltaCount r;
                  short_out_packets := 0;
                  short_source_IPv4s := {[ sourceIPv4Address r ]} |}.
Proof.
  unfold incoming_small_flows_stats.
  rewrite list_elem_of_In, in_map_iff. split.
  - intros (r & Heq & Hin). apply filter_In in Hin as [Hin Hloc].
    inversion Heq. exists r. rewrite list_elem_of_In. auto.
  - intros (r & Hin & Hloc & <- & ->). exists r. split; [reflexivity|].
    apply filter_In. by rewrite <- list_elem_of_In.
Qed.

Lemma elem_of_outgoing (w : list flow) (h : string) (v : short_stats) :
  (h, v) ∈ outgoing w ↔
    ∃ r, r ∈ w ∧ local_ip_pattern (sourceIPv4Address r) = true
         ∧ sourceIPv4Address r = h
         ∧ v = {| short_inc_packets := 0;
                  short_out_packets := packetDeltaCount r;
                  short_source_IPv4s := ∅ |}.
Proof.
  unfold outgoing_small_flows_stats.
  rewrite list_elem_of_In, in_map_iff. split.
  - intros (r & Heq & Hin). apply filter_In in Hin as [Hin Hloc].
    inversion Heq. exists r. rewrite list_elem_of_In. auto.
  - intros (r & Hin & Hloc & <- & ->). exists r. split; [reflexivity|].
    apply filter_In. by rewrite <- list_elem_of_In.
Qed.

Lemma incoming_app (w1 w2 : list flow) :
  incoming (w1 ++ w2) = incoming w1 ++ incoming w2.
Proof.
  unfold incoming_small_flows_stats. by rewrite List.filter_app, map_app.
Qed.

Lemma outgoing_app (w1 w2 : list flow) :
  outgoing (w1 ++ w2) = outgoing w1 ++ outgoing w2.
Proof.
  unfold outgoing_small_flows_stats. by rewrite List.filter_app, map_app.
Qed.

Lemma aggregated_lookup (w : list flow) (h : string) :
  aggregated w !! h =
    reduce1 short_merge (values_of h (incoming w) ++ values_of h (outgoing w)).
Proof.
  unfold small_window_aggregated.
  by rewrite reduceByKey_lookup, values_of_app.
Qed.

(** Outbound values carry no packets in and no source. *)
Lemma outgoing_values_inc (w : list flow) (h : string) :
  sumZ (short_inc_packets <$> values_of h (outgoing w)) = 0.
Proof.
  apply sumZ_zero. intros z Hz.
  apply list_elem_of_fmap in Hz as (v & -> & Hv).
  apply elem_of_values_of, elem_of_outgoing in Hv as (r & _ & _ & _ & ->).
  reflexivity.
Qed.

Lemma outgoing_values_sources (w : list flow) (h : string) :
  ⋃ (short_source_IPv4s <$> values_of h (outgoing w)) = (∅ : gset string).
Proof.
  apply set_eq. intros x. rewrite elem_of_union_list. split.
  - intros (X & HX & Hx). apply list_elem_of_fmap in HX as (v & -> & Hv).
    apply elem_of_values_of, elem_of_outgoing in Hv as (r & _ & _ & _ & ->).
    exact Hx.
  - intros Hx. by apply not_elem_of_empty in Hx.
Qed.

(** Every host of the short mapping matches the network filter. *)
Lemma aggregated_local (w : list flow) (h : string) (s : short_stats) :
  aggregated w !! h = Some s → local_ip_pattern h = true.
Proof.
  rewrite aggregated_lookup. intros H.
  destruct (values_of h (incoming w)) as [|v vs] eqn:Hin.
  - destruct (values_of h (outgoing w)) as [|v vs] eqn:Hout;
      [discriminate|].
    assert (Hv : v ∈ values_of h (outgoing w))
      by (rewrite Hout; apply list_elem_of_here).
    apply elem_of_values_of, elem_of_outgoing in Hv
      as (r & _ & Hloc & <- & _).
    exact Hloc.
  - assert (Hv : v ∈ values_of h (incoming w))
      by (rewrite Hin; apply list_elem_of_here).
    apply elem_of_values_of, elem_of_incoming in Hv
      as (r & _ & Hloc & <- & _).
    exact Hloc.
Qed.

(** The tally of a host: packets in are those of its inbound values, and
    its sources are the sources of the flows sent to it. *)
Lemma aggregated_inc (w : list flow) (h : string) (s : short_stats) :
  aggregated w !! h = Some s →
  short_inc_packets s = sumZ (short_inc_packets <$> values_of h (incoming w)).
Proof.
  rewrite aggregated_lookup. intros H.
  apply reduce1_short_merge in H as (Hi & _ & _).
  rewrite Hi, fmap_app, sumZ_app, outgoing_values_inc. lia.
Qed.

Lemma aggregated_sources (w : list flow) (h : string) (s : short_stats) :
  aggregated w !! h = Some s →
  ∀ x, x ∈ short_source_IPv4s s ↔
       ∃ r, r ∈ w ∧ destinationIPv4Address r = h ∧ sourceIPv4Address r = x.
Proof.
  intros Hs x. pose proof (aggregated_local w h s Hs) as Hloc.
  rewrite aggregated_lookup in Hs.
  apply reduce1_short_merge in Hs as (_ & _ & Hsrc).
  rewrite Hsrc, fmap_app, union_list_app_L, outgoing_values_sources.
  rewrite (right_id_L ∅ (∪)), elem_of_union_list. split.
  - intros (X & HX & Hx). apply list_elem_of_fmap in HX as (v & -> & Hv).
    apply elem_of_values_of, elem_of_incoming in Hv
      as (r & Hr & _ & Hd & ->).
    simpl in Hx. apply elem_of_singleton in Hx. exists r. auto.
  - intros (r & Hr & Hd & Hx).
    exists {[ sourceIPv4Address r ]}. split.
    + apply list_elem_of_fmap.
      exists {| short_inc_packets := packetDeltaCount r;
                short_out_packets := 0;
                short_source_IPv4s := {[ sourceIPv4Address r ]} |}.
      split; [reflexivity|].
      apply elem_of_values_of, elem_of_incoming.
      exists r. rewrite Hd. auto.
    + apply elem_of_singleton. auto.
Qed.

End short_window.

(** ** Integers that convert to a float

    [float_of_int] raises only when rounding carries the integer past the
    largest double; an integer below [2 ^ 1023] in magnitude is far from
    that. The lemmas follow the rounding of [binary_normalize] by the
    number of binary digits of the mantissa. *)

Lemma digits2_pos_size (p : positive) : digits2_pos p = Pos.size p.
Proof. induction p; simpl; congruence. Qed.

Lemma digits2_pos_succ (p : positive) :
  Zpos (digits2_pos (Pos.succ p)) <= Zpos (digits2_pos p) + 1.
Proof. induction p; simpl; lia. Qed.

Lemma digits2_pos_iter_xO (p d : positive) :
  Zpos (digits2_pos (Pos.iter xO p d)) = Zpos (digits2_pos p) + Zpos d.
Proof.
  rewrite Pos2Nat.inj_iter.
  rewrite <- (positive_nat_Z d).
  induction (Pos.to_nat d) as [|n IH]; simpl; [lia|].
  rewrite Pos2Z.inj_succ, IH. lia.
Qed.

Lemma Zdigits2_nonneg (m : Z) : 0 <= Zdigits2 m.
Proof. destruct m; simpl; lia. Qed.

Lemma shr_1_digits (mrs : shr_record) :
  0 <= shr_m mrs →
  0 <= shr_m (shr_1 mrs)
  ∧ Zdigits2 (shr_m (shr_1 mrs)) = Z.max 0 (Zdigits2 (shr_m mrs) - 1).
Proof.
  destruct mrs as [m r s]. simpl. intros Hm.
  destruct m as [|p|p]; [simpl; lia | | lia].
  destruct p as [p|p|]; cbn [shr_1 shr_m Zdigits2 digits2_pos];
    rewrite ?Pos2Z.inj_succ; lia.
Qed.

Lemma iter_shr_1_digits (n : positive) (mrs : shr_record) :
  0 <= shr_m mrs →
  0 <= shr_m (SpecFloat.iter_pos shr_1 n mrs)
  ∧ Zdigits2 (shr_m (SpecFloat.iter_pos shr_1 n mrs))
    = Z.max 0 (Zdigits2 (shr_m mrs) - Zpos n).
Proof.
  revert mrs. induction n as [n IH|n IH|]; intros mrs Hm; simpl.
  - destruct (shr_1_digits mrs Hm) as [H1 D1].
    destruct (IH _ H1) as [H2 D2]. destruct (IH _ H2) as [H3 D3].
    split; [exact H3|]. rewrite D3, D2, D1. lia.
  - destruct (IH _ Hm) as [H2 D2]. destruct (IH _ H2) as [H3 D3].
    split; [exact H3|]. rewrite D3, D2. lia.
  - apply shr_1_digits, Hm.
Qed.

Lemma round_nearest_even_digits (m : Z) (l : location) :
  0 <= m →
  0 <= round_nearest_even m l
  ∧ Zdigits2 (round_nearest_even m l) <= Zdigits2 m + 1.
Proof.
  intros Hm.
  assert (Hsucc : Zdigits2 (m + 1) <= Zdigits2 m + 1).
  { destruct m as [|p|p]; [simpl; lia | | lia].
    replace (Z.pos p + 1) with (Z.pos (Pos.succ p)) by lia.
    apply digits2_pos_succ. }
  unfold round_nearest_even.
  destruct l as [|[| |]]; [split; lia | | split; lia | split; lia].
  destruct (Z.even m); split; lia.
Qed.

Lemma shr_record_of_loc_m (m : Z) (l : location) :
  shr_m (shr_record_of_loc m l) = m.
Proof. destruct l as [|[| |]]; reflexivity. Qed.

Lemma shr_fexp_bounds (m e : Z) (l : location) :
  0 <= m →
  0 <= shr_m (fst (shr_fexp prec emax m e l))
  ∧ snd (shr_fexp prec emax m e l)
    = Z.max e (fexp prec emax (Zdigits2 m + e))
  ∧ Zdigits2 (shr_m (fst (shr_fexp prec emax m e l)))
    + snd (shr_fexp prec emax m e l)
    <= Z.max (snd (shr_fexp prec emax m e l)) (Zdigits2 m + e).
Proof.
  intros Hm. unfold shr_fexp, shr.
  destruct (fexp prec emax (Zdigits2 m + e) - e) as [|n|n] eqn:Hn; simpl.
  - rewrite shr_record_of_loc_m. lia.
  - assert (H0 : 0 <= shr_m (shr_record_of_loc m l))
      by (rewrite shr_record_of_loc_m; exact Hm).
    destruct (iter_shr_1_digits n _ H0) as [H1 D1].
    rewrite D1, shr_record_of_loc_m. lia.
  - rewrite shr_record_of_loc_m. lia.
Qed.

Lemma binary_round_aux_finite (sx : bool) (mx ex : Z) :
  0 <= mx → ex <= 971 → Zdigits2 mx + ex <= 1023 →
  ∀ s, binary_round_aux prec emax sx mx ex loc_Exact ≠ S754_infinity s.
Proof.
  intros Hm Hex Hd s. unfold binary_round_aux.
  pose proof (shr_fexp_bounds mx ex loc_Exact Hm) as (H1 & E1 & D1).
  destruct (shr_fexp prec emax mx ex loc_Exact) as [mrs' e']. simpl in *.
  destruct (round_nearest_even_digits (shr_m mrs') (loc_of_shr_record mrs') H1)
    as [H2 D2].
  pose proof (shr_fexp_bounds _ e' loc_Exact H2) as (H3 & E3 & D3).
  destruct (shr_fexp prec emax _ e' loc_Exact) as [mrs'' e'']. simpl in *.
  destruct (shr_m mrs'') as [|m|m]; [discriminate | | discriminate].
  match goal with
  | |- context [Z.leb ?a ?b] => destruct (Z.leb_spec a b) as [Hle|Hgt]
  end; [discriminate|].
  exfalso. unfold fexp, emin, prec, emax in *. lia.
Qed.

Lemma binary_round_finite (sx : bool) (p : positive) :
  Zpos (digits2_pos p) <= 1023 →
  ∀ s, binary_round prec emax sx p 0 ≠ S754_infinity s.
Proof.
  intros Hd s. unfold binary_round, shl_align.
  destruct (fexp prec emax (Z.pos (digits2_pos p) + 0) - 0) as [|d|d] eqn:Hsh.
  - apply binary_round_aux_finite; simpl; lia.
  - apply binary_round_aux_finite; simpl; lia.
  - apply binary_round_aux_finite.
    + lia.
    + unfold fexp, emin, prec, emax in *. lia.
    + simpl Zdigits2. rewrite digits2_pos_iter_xO.
      unfold fexp, emin, prec, emax in *. lia.
Qed.

Lemma digits2_pos_bound (p : positive) (n : Z) :
  0 <= n → Zpos p < 2 ^ n → Zpos (digits2_pos p) <= n.
Proof.
  intros Hn Hp. rewrite digits2_pos_size.
  pose proof (Pos.size_le p) as Hle.
  apply Pos2Z.pos_le_pos in Hle. rewrite Pos2Z.inj_pow in Hle.
  assert (Hlt : 2 ^ Z.pos (Pos.size p) < 2 ^ (n + 1)).
  { replace (n + 1) with (Z.succ n) by lia.
    rewrite Z.pow_succ_r by exact Hn. lia. }
  apply Z.pow_lt_mono_r_iff in Hlt; lia.
Qed.

Lemma float_of_int_in_range (z : Z) :
  in_double_range z → ∃ f, float_of_int z = Ok f.
Proof.
  unfold in_double_range, float_of_int, binary_normalize. intros Hz.
  destruct z as [|p|p].
  - eexists. reflexivity.
  - pose proof (binary_round_finite false p) as Hfin.
    destruct (binary_round prec emax false p 0) as [b|b| |b m e] eqn:Hr;
      try (eexists; reflexivity).
    exfalso. apply (Hfin (digits2_pos_bound p 1023 ltac:(lia) ltac:(lia)) b).
    reflexivity.
  - pose proof (binary_round_finite true p) as Hfin.
    destruct (binary_round prec emax true p 0) as [b|b| |b m e] eqn:Hr;
      try (eexists; reflexivity).
    exfalso. apply (Hfin (digits2_pos_bound p 1023 ltac:(lia) ltac:(lia)) b).
    reflexivity.
Qed.

(** ** The detector *)

Lemma float_of_int_Raise (z : Z) (e : pyerr) :
  float_of_int z = Raise e → e = OverflowError.
Proof.
  unfold float_of_int.
  destruct (binary_normalize prec emax z 0 false); intros H;
    inversion H; reflexivity.
Qed.

Lemma truediv_Raise (x : float) (y : Z) (e : pyerr) :
  y ≠ 0 → truediv x y = Raise e → e = OverflowError.
Proof.
  intros Hy. unfold truediv. destruct (decide (y = 0)); [contradiction|].
  intros H. apply bind_Raise in H as [H | (fy & _ & H)]; [|discriminate].
  by apply float_of_int_Raise in H.
Qed.

Lemma truediv_zero (x : float) : truediv x 0 = Raise ZeroDivisionError.
Proof. reflexivity. Qed.

Lemma ratio_Raise (i o : Z) (e : pyerr) :
  o ≠ 0 → ratio i o = Raise e → e = OverflowError.
Proof.
  intros Ho H. apply bind_Raise in H as [H | (f & _ & H)].
  - by apply float_of_int_Raise in H.
  - by apply truediv_Raise in H.
Qed.

Lemma mul_threshold (x : float) : mul x threshold = Ok (x * 50)%float.
Proof. reflexivity. Qed.

Lemma suspicious_eq (h : string) (s : short_stats) (l : long_stats) :
  suspicious (h, (s, l)) =
    if minimal_incoming <? short_inc_packets s then
      short_ratio ← ratio (short_inc_packets s) (short_out_packets s);
      long_ratio ← ratio (item0 l) (item1 l);
      Ok (gt short_ratio (long_ratio * 50)%float)
    else Ok false.
Proof.
  unfold suspicious, ratio. simpl.
  destruct (minimal_incoming <? short_inc_packets s); [|reflexivity].
  destruct (float_of_int (short_inc_packets s)) as [fs|]; [|reflexivity].
  simpl. destruct (truediv fs (short_out_packets s)) as [sr|]; [|reflexivity].
  simpl. destruct (float_of_int (item0 l)) as [fl|]; [|reflexivity].
  simpl. destruct (truediv fl (item1 l)) as [lr|]; reflexivity.
Qed.

Lemma new_entry_eq (h : string) (s : short_stats) (l : long_stats) :
  new_entry (h, (s, l)) =
    short_ratio ← ratio (short_inc_packets s) (short_out_packets s);
    long_ratio ← ratio (item0 l) (item1 l);
    Ok {| dst_ip := h; shortratio := short_ratio; longratio := long_ratio;
          attackers := elements (short_source_IPv4s s) |}.
Proof.
  unfold new_entry, ratio. simpl.
  destruct (float_of_int (short_inc_packets s)) as [fs|]; [|reflexivity].
  simpl. destruct (truediv fs (short_out_packets s)) as [sr|]; [|reflexivity].
  simpl. destruct (float_of_int (item0 l)) as [fl|]; [|reflexivity].
  simpl. destruct (truediv fl (item1 l)) as [lr|]; reflexivity.
Qed.

Lemma suspicious_true (h : string) (s : short_stats) (l : long_stats) :
  suspicious (h, (s, l)) = Ok true ↔
    minimal_incoming < short_inc_packets s
    ∧ ∃ short_ratio long_ratio,
        ratio (short_inc_packets s) (short_out_packets s) = Ok short_ratio
        ∧ ratio (item0 l) (item1 l) = Ok long_ratio
        ∧ gt short_ratio (long_ratio * 50)%float = true.
Proof.
  rewrite suspicious_eq.
  destruct (minimal_incoming <? short_inc_packets s) eqn:Hmin.
  - apply Z.ltb_lt in Hmin. split.
    + intros H. split; [exact Hmin|].
      apply bind_Ok in H as (sr & Hsr & H).
      apply bind_Ok in H as (lr & Hlr & H).
      exists sr, lr. inversion H. auto.
    + intros (_ & sr & lr & Hsr & Hlr & Hgt).
      rewrite Hsr, Hlr. simpl. by rewrite Hgt.
  - apply Z.ltb_ge in Hmin. split; [discriminate|].
    intros (Hlt & _). lia.
Qed.

Lemma suspicious_Raise (h : string) (s : short_stats) (l : long_stats)
    (e : pyerr) :
  short_out_packets s ≠ 0 → item1 l ≠ 0 →
  suspicious (h, (s, l)) = Raise e → e = OverflowError.
Proof.
  intros Hs Hl. rewrite suspicious_eq.
  destruct (minimal_incoming <? short_inc_packets s); [|discriminate].
  intros H. apply bind_Raise in H as [H | (sr & _ & H)].
  - by apply ratio_Raise in H.
  - apply bind_Raise in H as [H | (lr & _ & H)]; [|discriminate].
    by apply ratio_Raise in H.
Qed.

Lemma ratio_in_range (i o : Z) :
  in_double_range i → in_double_range o → o ≠ 0 → ∃ f, ratio i o = Ok f.
Proof.
  intros Hi Ho Hne. unfold ratio, truediv.
  destruct (float_of_int_in_range i Hi) as (fi & ->).
  destruct (float_of_int_in_range o Ho) as (fo & Hfo). simpl.
  destruct (decide (o = 0)); [contradiction|].
  rewrite Hfo. simpl. eexists. reflexivity.
Qed.

Lemma suspicious_in_range (h : string) (s : short_stats) (l : long_stats) :
  in_double_range (short_inc_packets s) →
  in_double_range (short_out_packets s) →
  in_double_range (item0 l) → in_double_range (item1 l) →
  short_out_packets s ≠ 0 → item1 l ≠ 0 →
  ∃ b, suspicious (h, (s, l)) = Ok b.
Proof.
  intros Hsi Hso Hli Hlo Hns Hnl. rewrite suspicious_eq.
  destruct (minimal_incoming <? short_inc_packets s);
    [|eexists; reflexivity].
  destruct (ratio_in_range _ _ Hsi Hso Hns) as (sr & ->).
  destruct (ratio_in_range _ _ Hli Hlo Hnl) as (lr & ->).
  simpl. eexists. reflexivity.
Qed.

(** A record that passed the filter has both of its ratios. *)
Lemma suspicious_new_entry (h : string) (s : short_stats) (l : long_stats) :
  suspicious (h, (s, l)) = Ok true → ∃ a, new_entry (h, (s, l)) = Ok a.
Proof.
  intros H. apply suspicious_true in H as (_ & sr & lr & Hsr & Hlr & _).
  rewrite new_entry_eq, Hsr, Hlr. simpl. eexists. reflexivity.
Qed.

Lemma new_entry_fields (e : string * (short_stats * long_stats)) (a : alert) :
  new_entry e = Ok a →
  dst_ip a = e.1 ∧ attackers a = elements (short_source_IPv4s e.2.1).
Proof.
  destruct e as [h [s l]]. rewrite new_entry_eq. intros H.
  apply bind_Ok in H as (sr & _ & H). apply bind_Ok in H as (lr & _ & H).
  inversion H. auto.
Qed.

Lemma windows_union_lookup (short : gmap string short_stats)
    (long : gmap string long_stats) (h : string) :
  windows_union short long !! h =
    match short !! h, long !! h with
    | Some s, Some l => Some (s, l)
    | _, _ => None
    end.
Proof.
  unfold windows_union, join. rewrite lookup_merge.
  destruct (short !! h), (long !! h); reflexivity.
Qed.

Lemma nonzero_union_lookup (short : gmap string short_stats)
    (long : gmap string long_stats) (h : string) (s : short_stats)
    (l : long_stats) :
  nonzero_union short long !! h = Some (s, l) ↔
    short !! h = Some s ∧ long !! h = Some l
    ∧ short_out_packets s ≠ 0 ∧ item1 l ≠ 0.
Proof.
  unfold nonzero_union.
  rewrite map_lookup_filter_Some, windows_union_lookup. simpl.
  destruct (short !! h) as [s'|], (long !! h) as [l'|]; split;
    try (intros [? ?]; discriminate);
    try (intros (? & ? & ?); discriminate).
  - intros (Heq & Hs & Hl). inversion Heq. subst. auto.
  - intros (Hs & Hl & Hns & Hnl). inversion Hs. inversion Hl. subst. auto.
Qed.

Section detect_lemmas.
Variables (short : gmap string short_stats) (long : gmap string long_stats).

(** The detected records: one per host, each a host of both mappings with
    nonzero packets out that the lambda accepts. *)
Lemma windows_union_filtered_elem rdd :
  windows_union_filtered short long = Ok rdd →
  ∀ h s l, (h, (s, l)) ∈ rdd ↔
    short !! h = Some s ∧ long !! h = Some l
    ∧ short_out_packets s ≠ 0 ∧ item1 l ≠ 0
    ∧ suspicious (h, (s, l)) = Ok true.
Proof.
  intros H h s l. unfold windows_union_filtered in H.
  rewrite (filterM_Ok_elem _ _ _ H), elem_of_map_to_list.
  rewrite nonzero_union_lookup. tauto.
Qed.

Lemma windows_union_filtered_NoDup rdd :
  windows_union_filtered short long = Ok rdd → NoDup rdd.*1.
Proof.
  intros H. apply filterM_Ok_sublist in H.
  apply (fmap_sublist fst) in H.
  exact (sublist_NoDup _ _ (NoDup_fst_map_to_list _) H).
Qed.

Lemma collectAsMap_elem rdd (e : string * (short_stats * long_stats)) :
  windows_union_filtered short long = Ok rdd →
  e ∈ map_to_list (list_to_map (M:=gmap string _) (reverse rdd)) ↔ e ∈ rdd.
Proof.
  intros H. apply windows_union_filtered_NoDup in H.
  rewrite map_to_list_to_map; [apply elem_of_reverse|].
  by rewrite fmap_reverse, reverse_Permutation.
Qed.

(** Emission never raises on what the filter let through. *)
Lemma print_and_send_total rdd :
  windows_union_filtered short long = Ok rdd →
  ∃ alerts, print_and_send rdd = Ok alerts.
Proof.
  intros H. unfold print_and_send. apply mapM_total.
  intros [h [s l]] He. apply (collectAsMap_elem _ _ H) in He.
  apply (windows_union_filtered_elem _ H) in He as (_ & _ & _ & _ & Hsus).
  by apply suspicious_new_entry.
Qed.

Lemma detect_Ok alerts :
  detect short long = Ok alerts ↔
    ∃ rdd, windows_union_filtered short long = Ok rdd
           ∧ print_and_send rdd = Ok alerts.
Proof. unfold detect. apply bind_Ok. Qed.

Lemma detect_Raise e :
  detect short long = Raise e → e = OverflowError.
Proof.
  unfold detect. intros H.
  apply bind_Raise in H as [H | (rdd & Hrdd & H)].
  - apply filterM_Raise in H as ([h [s l]] & Hin & H).
    apply elem_of_map_to_list, nonzero_union_lookup in Hin
      as (_ & _ & Hs & Hl).
    by apply suspicious_Raise in H.
  - destruct (print_and_send_total _ Hrdd) as (alerts & Hal). congruence.
Qed.

Lemma detect_elem alerts :
  detect short long = Ok alerts →
  ∀ a, a ∈ alerts ↔
    ∃ h s l, short !! h = Some s ∧ long !! h = Some l
             ∧ short_out_packets s ≠ 0 ∧ item1 l ≠ 0
             ∧ suspicious (h, (s, l)) = Ok true
             ∧ new_entry (h, (s, l)) = Ok a.
Proof.
  intros H a. apply detect_Ok in H as (rdd & Hrdd & Hps).
  unfold print_and_send in Hps. rewrite (mapM_Ok_elem _ _ _ Hps). split.
  - intros ([h [s l]] & He & Hnew).
    apply (collectAsMap_elem _ _ Hrdd) in He.
    apply (windows_union_filtered_elem _ Hrdd) in He
      as (Hs & Hl & Hns & Hnl & Hsus).
    exists h, s, l. auto 10.
  - intros (h & s & l & Hs & Hl & Hns & Hnl & Hsus & Hnew).
    exists (h, (s, l)). split; [|exact Hnew].
    apply (collectAsMap_elem _ _ Hrdd).
    apply (windows_union_filtered_elem _ Hrdd). auto.
Qed.

End detect_lemmas.

(** On such mappings the detection runs to its end. *)
Lemma detect_total (short : gmap string short_stats)
    (long : gmap string long_stats) :
  counts_in_range short long → ∃ alerts, detect short long = Ok alerts.
Proof.
  intros [Hshort Hlong].
  destruct (filterM_total suspicious (map_to_list (nonzero_union short long)))
    as (rdd & Hrdd).
  { intros [h [s l]] He.
    apply elem_of_map_to_list, nonzero_union_lookup in He
      as (Hs & Hl & Hns & Hnl).
    destruct (Hshort h s Hs) as [Hsi Hso].
    destruct (Hlong h l Hl) as [Hli Hlo].
    by apply suspicious_in_range. }
  destruct (print_and_send_total short long rdd Hrdd) as (alerts & Hal).
  exists alerts. apply detect_Ok. exists rdd. auto.
Qed.

Lemma tick_detect (local_ip_pattern : string → bool)
    (filtered_stream_data : DStream flow) (k : nat) :
  tick local_ip_pattern filtered_stream_data k
  = detect (short_at local_ip_pattern filtered_stream_data k)
           (long_at local_ip_pattern filtered_stream_data k).
Proof. reflexivity. Qed.

(** A host with no packets out in one of the mappings plays no part in the
    tick. *)
Lemma nonzero_union_delete_short (short : gmap string short_stats)
    (long : gmap string long_stats) (h : string) (s : short_stats) :
  short !! h = Some s → short_out_packets s = 0 →
  nonzero_union (delete h short) long = nonzero_union short long.
Proof.
  intros Hs Hz. apply map_eq. intros i. apply option_eq. intros [s' l'].
  rewrite !nonzero_union_lookup.
  destruct (decide (i = h)) as [->|Hne].
  - rewrite lookup_delete_eq. split.
    + intros (H & _). discriminate.
    + intros (H & _ & Hns & _). congruence.
  - by rewrite lookup_delete_ne.
Qed.

Lemma nonzero_union_delete_long (short : gmap string short_stats)
    (long : gmap string long_stats) (h : string) (l : long_stats) :
  long !! h = Some l → item1 l = 0 →
  nonzero_union short (delete h long) = nonzero_union short long.
Proof.
  intros Hl Hz. apply map_eq. intros i. apply option_eq. intros [s' l'].
  rewrite !nonzero_union_lookup.
  destruct (decide (i = h)) as [->|Hne].
  - rewrite lookup_delete_eq. split.
    + intros (_ & H & _). discriminate.
    + intros (_ & H & _ & Hnl). congruence.
  - by rewrite lookup_delete_ne.
Qed.

(** ** The long window *)

Lemma horizon_240 : horizon = 240%nat.
Proof. reflexivity. Qed.

Lemma elem_of_horizon_intervals (k j : nat) :
  j ∈ horizon_intervals k ↔ (j ≤ k ∧ k < j + horizon)%nat.
Proof. unfold horizon_intervals. rewrite elem_of_seq. lia. Qed.

Lemma values_of_fmap {V W} (f : V → W) (h : string) (rdd : list (string * V)) :
  values_of h (map (λ kv, (kv.1, f kv.2)) rdd) = f <$> values_of h rdd.
Proof.
  induction rdd as [|[k v] rdd IH]; [reflexivity|].
  simpl map. rewrite !values_of_cons. simpl.
  destruct (decide (k = h)); [rewrite fmap_cons|]; by rewrite IH.
Qed.

Lemma values_of_concat {V} (h : string) (rdds : list (list (string * V))) :
  values_of h (concat rdds) = concat (values_of h <$> rdds).
Proof.
  induction rdds as [|rdd rdds IH]; [reflexivity|].
  simpl. by rewrite values_of_app, IH.
Qed.

Section long_window.
Variable local_ip_pattern : string → bool.
Variable filtered_stream_data : DStream flow.

Local Abbreviation short_at' := (short_at local_ip_pattern filtered_stream_data).
Local Abbreviation long_at' := (long_at local_ip_pattern filtered_stream_data).
Local Abbreviation tallies_of' :=
  (tallies_of local_ip_pattern filtered_stream_data).

Lemma union_long_flows_eq (k : nat) :
  union_long_flows local_ip_pattern filtered_stream_data k =
    concat (map (λ j, map_to_list (short_at' j)) (horizon_intervals k)).
Proof.
  unfold union_long_flows, window, horizon_intervals.
  fold horizon.
  replace (Z.to_nat (base_window_length / base_window_length)) with 1%nat
    by reflexivity.
  by rewrite Nat.mul_1_r.
Qed.

Lemma long_values (k : nat) (h : string) :
  values_of h (map (λ kv, (kv.1, Tuple3 kv.2))
                   (union_long_flows local_ip_pattern filtered_stream_data k))
  = Tuple3 <$> tallies_of' h (horizon_intervals k).
Proof.
  rewrite values_of_fmap, union_long_flows_eq, values_of_concat.
  f_equal. unfold tallies_of.
  induction (horizon_intervals k) as [|j js IH]; [reflexivity|].
  simpl. rewrite values_of_map_to_list.
  destruct (short_at' j !! h); simpl; [f_equal|]; exact IH.
Qed.

Lemma long_at_lookup (k : nat) (h : string) :
  long_at' k !! h =
    reduce1 long_merge (Tuple3 <$> tallies_of' h (horizon_intervals k)).
Proof.
  unfold long_at, long_window_aggregated.
  by rewrite reduceByKey_lookup, long_values.
Qed.

Lemma tallies_of_nil (h : string) (js : list nat) :
  tallies_of' h js = [] ↔ ∀ j, j ∈ js → short_at' j !! h = None.
Proof.
  unfold tallies_of. induction js as [|j js IH]; simpl.
  - split; [|reflexivity]. intros _ j Hj. by apply elem_of_nil in Hj.
  - destruct (short_at' j !! h) as [s|] eqn:Hj; split.
    + discriminate.
    + intros H. specialize (H j (list_elem_of_here _ _)). congruence.
    + intros H j' Hj'. apply elem_of_cons in Hj' as [->|Hj']; [exact Hj|].
      by apply IH.
    + intros H. apply IH. intros j' Hj'. apply H.
      by apply list_elem_of_further.
Qed.

Lemma tallies_of_sum (f : short_stats → Z) (h : string) (js : list nat) :
  sumZ (f <$> tallies_of' h js)
  = sumZ ((λ j, from_option f 0 (short_at' j !! h)) <$> js).
Proof.
  unfold tallies_of. induction js as [|j js IH]; [reflexivity|].
  change (sumZ (f <$> match short_at' j !! h with
                      | Some s => s :: omap (λ j, short_at' j !! h) js
                      | None => omap (λ j, short_at' j !! h) js
                      end)
          = from_option f 0 (short_at' j !! h)
            + sumZ ((λ j, from_option f 0 (short_at' j !! h)) <$> js)).
  rewrite <- IH. destruct (short_at' j !! h) as [s|]; reflexivity.
Qed.

End long_window.

(** ** Totals over a short mapping *)

Lemma sum_incoming_empty : sum_incoming ∅ = 0.
Proof. unfold sum_incoming. by rewrite map_fold_empty. Qed.

Lemma sum_incoming_insert_fresh (m : gmap string short_stats) (k : string)
    (v : short_stats) :
  m !! k = None →
  sum_incoming (<[k:=v]> m) = short_inc_packets v + sum_incoming m.
Proof.
  intros Hk. unfold sum_incoming.
  rewrite map_fold_insert_L; [reflexivity | | exact Hk].
  intros. lia.
Qed.

Lemma sum_incoming_delete (m : gmap string short_stats) (k : string)
    (a : short_stats) :
  m !! k = Some a →
  sum_incoming m = short_inc_packets a + sum_incoming (delete k m).
Proof.
  intros Hk. unfold sum_incoming.
  rewrite (map_fold_delete_L _ _ k a m); [reflexivity | | exact Hk].
  intros. lia.
Qed.

Lemma sum_incoming_mergeValue (d : gmap string short_stats)
    (kv : string * short_stats) :
  sum_incoming (mergeValue short_merge d kv)
  = sum_incoming d + short_inc_packets kv.2.
Proof.
  destruct kv as [k v]. unfold mergeValue. simpl.
  destruct (d !! k) as [a|] eqn:Hk.
  - rewrite <- insert_delete_eq.
    rewrite sum_incoming_insert_fresh by apply lookup_delete_eq.
    rewrite (sum_incoming_delete d k a Hk). simpl. lia.
  - rewrite sum_incoming_insert_fresh by exact Hk. lia.
Qed.

Lemma sum_incoming_foldl (d : gmap string short_stats)
    (rdd : list (string * short_stats)) :
  sum_incoming (foldl (mergeValue short_merge) d rdd)
  = sum_incoming d + sumZ ((λ kv, short_inc_packets kv.2) <$> rdd).
Proof.
  revert d. induction rdd as [|kv rdd IH]; intros d.
  - simpl. unfold sumZ. simpl. lia.
  - simpl foldl. rewrite IH, sum_incoming_mergeValue, fmap_cons, sumZ_cons.
    lia.
Qed.

Lemma sum_incoming_reduceByKey (rdd : list (string * short_stats)) :
  sum_incoming (reduceByKey short_merge rdd)
  = sumZ ((λ kv, short_inc_packets kv.2) <$> rdd).
Proof.
  unfold reduceByKey. rewrite sum_incoming_foldl, sum_incoming_empty. lia.
Qed.

Lemma tick_stream0 : tick in_10_10 stream0 1 = Ok alerts0.
Proof. vm_compute. reflexivity. Qed.

Lemma short0_burst : short0 !! "10.10.0.1" = Some burst0.
Proof. vm_compute. reflexivity. Qed.

Lemma long0_burst : long0 !! "10.10.0.1" = Some (Tuple2 7150005 1000100).
Proof. vm_compute. reflexivity. Qed.

Lemma short0_sink : short0 !! "10.10.0.2" = Some sink0.
Proof. vm_compute. reflexivity. Qed.

Lemma long0_sink : long0 !! "10.10.0.2" = Some (Tuple3 sink0).
Proof. vm_compute. reflexivity. Qed.

Lemma detect_short1_long1 : detect short1 long1 = Ok alerts1.
Proof. vm_compute. reflexivity. Qed.

(** ** The claims *)

(** For a host of both mappings with nonzero packets out, when the
    detection has run to its end. *)
Lemma alert_iff_of_detect
    (short : gmap string short_stats) (long : gmap string long_stats)
    (h : string) (s : short_stats) (l : long_stats) (alerts : list alert) :
  short !! h = Some s → long !! h = Some l →
  detect short long = Ok alerts →
  (∃ a, a ∈ alerts ∧ dst_ip a = h) ↔
    (short_out_packets s ≠ 0 ∧ item1 l ≠ 0
     ∧ suspicious (h, (s, l)) = Ok true).
Proof.
  intros Hs Hl Hdet. split.
  - intros (a & Ha & Hdst).
    apply (detect_elem _ _ _ Hdet) in Ha
      as (h' & s' & l' & Hs' & Hl' & Hns & Hnl & Hsus & Hnew).
    apply new_entry_fields in Hnew as [Hdst' _]. simpl in Hdst'.
    assert (h' = h) by congruence. subst h'.
    assert (s' = s) by congruence. assert (l' = l) by congruence. subst.
    auto.
  - intros (Hns & Hnl & Hsus).
    destruct (suspicious_new_entry _ _ _ Hsus) as (a & Hnew).
    exists a. split.
    + apply (detect_elem _ _ _ Hdet). exists h, s, l. auto 10.
    + by apply new_entry_fields in Hnew as [-> _].
Qed.

Lemma ratio_Ok_iff (i o : Z) (r : float) :
  o ≠ 0 →
  ratio i o = Ok r ↔
    ∃ fi fo, float_of_int i = Ok fi ∧ float_of_int o = Ok fo
             ∧ r = (fi / fo)%float.
Proof.
  intros Ho. unfold ratio, truediv.
  destruct (float_of_int i) as [fi|e]; simpl.
  - destruct (decide (o = 0)); [contradiction|].
    destruct (float_of_int o) as [fo|e]; simpl; split.
    + intros H. exists fi, fo. inversion H. auto.
    + intros (fi' & fo' & Hi & Ho' & ->). congruence.
    + discriminate.
    + intros (fi' & fo' & _ & Ho' & _). discriminate.
  - split; [discriminate|]. intros (fi' & fo' & Hi & _). discriminate.
Qed.

(** On counters that fit a machine word, [float_of_int] is the conversion
    of the processor. *)
Lemma float_of_int_uint63 (z : Z) :
  0 <= z < 2 ^ 63 →
  float_of_int z = Ok (of_uint63 (Uint63.of_Z z)).
Proof.
  intros Hz.
  destruct (float_of_int_in_range z) as (f & Hf).
  { unfold in_double_range. rewrite Z.abs_eq by lia.
    apply Z.lt_trans with (2 ^ 63); [lia|]. by apply Z.pow_lt_mono_r. }
  rewrite Hf. f_equal. unfold float_of_int in Hf.
  assert (Hspec : binary_normalize prec emax z 0 false
                  = Prim2SF (of_uint63 (Uint63.of_Z z))).
  { rewrite of_uint63_spec, Uint63.of_Z_spec.
    rewrite Z.mod_small; [reflexivity|]. exact Hz. }
  rewrite Hspec in Hf.
  destruct (Prim2SF (of_uint63 (Uint63.of_Z z))) eqn:Hp;
    try discriminate;
    (assert (Hfx : f = SF2Prim (Prim2SF (of_uint63 (Uint63.of_Z z))))
       by (rewrite Hp; congruence));
    by rewrite Hfx, SF2Prim_Prim2SF.
Qed.

(** C1: for a host of both mappings whose short and long packets out are
    both nonzero, a tick whose detection runs to its end emits an alert for
    the host exactly when its short packets in exceed 100000 and
    [float(short_in) / short_out > float(long_in) / long_out * 50] in
    binary64 arithmetic. The detection runs to its end when every count of
    both mappings is below [2 ^ 1023] in magnitude; when it does not, it
    raises [OverflowError]. *)
Theorem alert_iff_volume_and_ratio
    (short : gmap string short_stats) (long : gmap string long_stats)
    (h : string) (s : short_stats) (l : long_stats) :
  short !! h = Some s → long !! h = Some l →
  short_out_packets s ≠ 0 → item1 l ≠ 0 →
  (∀ alerts,
     detect short long = Ok alerts →
     ((∃ a, a ∈ alerts ∧ dst_ip a = h) ↔
        (100000 < short_inc_packets s
         ∧ ∃ short_in short_out long_in long_out,
             float_of_int (short_inc_packets s) = Ok short_in
             ∧ float_of_int (short_out_packets s) = Ok short_out
             ∧ float_of_int (item0 l) = Ok long_in
             ∧ float_of_int (item1 l) = Ok long_out
             ∧ PrimFloat.ltb (long_in / long_out * 50)%float
                             (short_in / short_out)%float = true)))
  ∧ (counts_in_range short long → ∃ alerts, detect short long = Ok alerts)
  ∧ (∀ e, detect short long = Raise e → e = OverflowError).
Proof.
  intros Hs Hl Hns Hnl.
  split; [|split; [apply detect_total | apply detect_Raise]].
  intros alerts Hdet.
  rewrite (alert_iff_of_detect _ _ _ _ _ _ Hs Hl Hdet), suspicious_true.
  change 100000 with minimal_incoming. unfold gt.
  split.
  - intros (_ & _ & Hmin & sr & lr & Hsr & Hlr & Hgt).
    split; [exact Hmin|].
    apply (ratio_Ok_iff _ _ _ Hns) in Hsr as (fsi & fso & Hsi & Hso & ->).
    apply (ratio_Ok_iff _ _ _ Hnl) in Hlr as (fli & flo & Hli & Hlo & ->).
    exists fsi, fso, fli, flo. auto 10.
  - intros (Hmin & fsi & fso & fli & flo & Hsi & Hso & Hli & Hlo & Hlt).
    split; [exact Hns|]. split; [exact Hnl|]. split; [exact Hmin|].
    exists (fsi / fso)%float, (fli / flo)%float.
    split; [apply (ratio_Ok_iff _ _ _ Hns); eauto|].
    split; [apply (ratio_Ok_iff _ _ _ Hnl); eauto|]. exact Hlt.
Qed.

Lemma alert_iff_volume_and_ratio_witness :
  (∀ alerts,
     detect short0 long0 = Ok alerts →
     ((∃ a, a ∈ alerts ∧ dst_ip a = "10.10.0.1") ↔
        (100000 < short_inc_packets burst0
         ∧ ∃ short_in short_out long_in long_out,
             float_of_int (short_inc_packets burst0) = Ok short_in
             ∧ float_of_int (short_out_packets burst0) = Ok short_out
             ∧ float_of_int (item0 (Tuple2 7150005 1000100)) = Ok long_in
             ∧ float_of_int (item1 (Tuple2 7150005 1000100)) = Ok long_out
             ∧ PrimFloat.ltb (long_in / long_out * 50)%float
                             (short_in / short_out)%float = true)))
  ∧ (counts_in_range short0 long0 → ∃ alerts, detect short0 long0 = Ok alerts)
  ∧ (∀ e, detect short0 long0 = Raise e → e = OverflowError).
Proof.
  apply (alert_iff_volume_and_ratio short0 long0 "10.10.0.1" burst0
           (Tuple2 7150005 1000100)).
  - vm_compute. reflexivity.
  - vm_compute. reflexivity.
  - simpl. lia.
  - simpl. lia.
Defined.

(** Without the proviso the rule fails: at tick 1 of [stream_overflow] the
    host 10.10.0.1 is in both mappings with nonzero packets out, took more
    than 100000 packets in and has a short ratio above 50 times its long
    ratio, and the tick emits no alert for it: converting the packets in of
    10.10.0.9 raises and takes the whole tick down. *)
Lemma alert_iff_volume_and_ratio_counterexample :
  short_at in_10_10 stream_overflow 1 !! "10.10.0.1" = Some burst0
  ∧ long_at in_10_10 stream_overflow 1 !! "10.10.0.1"
    = Some (Tuple2 7150005 1000100)
  ∧ short_out_packets burst0 ≠ 0
  ∧ item1 (Tuple2 7150005 1000100) ≠ 0
  ∧ 100000 < short_inc_packets burst0
  ∧ float_of_int (short_inc_packets burst0) = Ok 150005%float
  ∧ float_of_int (short_out_packets burst0) = Ok 100%float
  ∧ float_of_int (item0 (Tuple2 7150005 1000100)) = Ok 7150005%float
  ∧ float_of_int (item1 (Tuple2 7150005 1000100)) = Ok 1000100%float
  ∧ PrimFloat.ltb (7150005 / 1000100 * 50)%float (150005 / 100)%float = true
  ∧ tick in_10_10 stream_overflow 1 = Raise OverflowError
  ∧ ¬ (∃ alerts a, tick in_10_10 stream_overflow 1 = Ok alerts
                   ∧ a ∈ alerts ∧ dst_ip a = "10.10.0.1").
Proof.
  assert (Htick : tick in_10_10 stream_overflow 1 = Raise OverflowError)
    by (vm_compute; reflexivity).
  repeat (split; [first [vm_compute; reflexivity | simpl; lia]|]).
  intros (alerts & a & Hok & _). rewrite Htick in Hok. discriminate.
Qed.

(** The scenarios of the rule: a burst of 150000 in for 100 out against a
    history of 7000000 in and 1000000 out is reported; 50000 in is not,
    however steep its ratio. *)
Example scenario_burst :
  suspicious ("H", ({| short_inc_packets := 150000; short_out_packets := 100;
                       short_source_IPv4s := ∅ |},
                    Tuple2 7000000 1000000)) = Ok true.
Proof. vm_compute. reflexivity. Qed.

Example scenario_low_volume :
  suspicious ("H", ({| short_inc_packets := 50000; short_out_packets := 1;
                       short_source_IPv4s := ∅ |},
                    Tuple2 7000000 1000000)) = Ok false.
Proof. vm_compute. reflexivity. Qed.

(** C2: the tick emits no alert for a host whose short packets out or long
    packets out are zero; such a host is left out without an error, the
    tick being what it is without the host; and no division, in the filter
    or at emission, divides by zero: the records handed to [print_and_send]
    have nonzero divisors and every one of them yields its entry. *)
Theorem no_alert_when_outgoing_zero
    (short : gmap string short_stats) (long : gmap string long_stats) :
  (∀ alerts h s l,
     detect short long = Ok alerts →
     short !! h = Some s → long !! h = Some l →
     short_out_packets s = 0 ∨ item1 l = 0 →
     ∀ a, a ∈ alerts → dst_ip a ≠ h)
  ∧ (∀ h s, short !! h = Some s → short_out_packets s = 0 →
            detect (delete h short) long = detect short long)
  ∧ (∀ h l, long !! h = Some l → item1 l = 0 →
            detect short (delete h long) = detect short long)
  ∧ detect short long ≠ Raise ZeroDivisionError
  ∧ (∀ rdd, windows_union_filtered short long = Ok rdd →
       (∀ e, e ∈ rdd → short_out_packets e.2.1 ≠ 0 ∧ item1 e.2.2 ≠ 0)
       ∧ ∃ alerts, print_and_send rdd = Ok alerts).
Proof.
  split; [|split; [|split; [|split]]].
  - intros alerts h s l Hdet Hs Hl Hzero a Ha Hdst.
    apply (detect_elem _ _ _ Hdet) in Ha
      as (h' & s' & l' & Hs' & Hl' & Hns & Hnl & _ & Hnew).
    apply new_entry_fields in Hnew as [Hdst' _]. simpl in Hdst'.
    assert (h' = h) by congruence. subst h'.
    assert (s' = s) by congruence. assert (l' = l) by congruence. subst.
    destruct Hzero; contradiction.
  - intros h s Hs Hz. unfold detect, windows_union_filtered.
    by rewrite (nonzero_union_delete_short _ _ _ _ Hs Hz).
  - intros h l Hl Hz. unfold detect, windows_union_filtered.
    by rewrite (nonzero_union_delete_long _ _ _ _ Hl Hz).
  - intros H. apply detect_Raise in H. discriminate.
  - intros rdd Hrdd.
    split; [|exact (print_and_send_total short long rdd Hrdd)].
    intros [h [s l]] He.
    apply (windows_union_filtered_elem _ _ _ Hrdd) in He
      as (_ & _ & Hs & Hl & _).
    auto.
Qed.

Lemma no_alert_when_outgoing_zero_witness :
  Forall (λ a, dst_ip a ≠ "10.10.0.2") alerts0.
Proof.
  destruct (no_alert_when_outgoing_zero short0 long0) as (H & _).
  apply Forall_forall.
  apply (H alerts0 "10.10.0.2" sink0 (Tuple3 sink0)).
  - vm_compute. reflexivity.
  - vm_compute. reflexivity.
  - vm_compute. reflexivity.
  - left. reflexivity.
Defined.

(** C3: a host that one of the two mappings lacks gets no alert at the
    tick: the join keeps the hosts of both. *)
Theorem no_alert_outside_inner_join
    (short : gmap string short_stats) (long : gmap string long_stats)
    (alerts : list alert) (h : string) :
  detect short long = Ok alerts →
  short !! h = None ∨ long !! h = None →
  ∀ a, a ∈ alerts → dst_ip a ≠ h.
Proof.
  intros Hdet Hnone a Ha Hdst.
  apply (detect_elem _ _ _ Hdet) in Ha
    as (h' & s' & l' & Hs' & Hl' & _ & _ & _ & Hnew).
  apply new_entry_fields in Hnew as [Hdst' _]. simpl in Hdst'.
  assert (h' = h) by congruence. subst h'.
  destruct Hnone; congruence.
Qed.

Lemma no_alert_outside_inner_join_witness :
  Forall (λ a, dst_ip a ≠ "10.10.0.3") alerts1
  ∧ Forall (λ a, dst_ip a ≠ "10.10.0.4") alerts1.
Proof.
  split; apply Forall_forall.
  - apply (no_alert_outside_inner_join short1 long1 alerts1 "10.10.0.3").
    + vm_compute. reflexivity.
    + right. vm_compute. reflexivity.
  - apply (no_alert_outside_inner_join short1 long1 alerts1 "10.10.0.4").
    + vm_compute. reflexivity.
    + left. vm_compute. reflexivity.
Defined.

(** C4: a flow yields an inbound value under its destination (packets in,
    no packets out, its source as the one source) exactly when the
    destination matches the network filter, and an outbound value under its
    source (packets out only) exactly when the source matches; a window
    yields the values of its flows, so a flow matching on both sides yields
    both and one matching on neither yields none. *)
Theorem classifier_attribution (local_ip_pattern : string → bool) :
  (∀ json_rdd,
     incoming_small_flows_stats local_ip_pattern [json_rdd] =
       if local_ip_pattern (destinationIPv4Address json_rdd)
       then [(destinationIPv4Address json_rdd,
              {| short_inc_packets := packetDeltaCount json_rdd;
                 short_out_packets := 0;
                 short_source_IPv4s := {[ sourceIPv4Address json_rdd ]} |})]
       else [])
  ∧ (∀ json_rdd,
       outgoing_small_flows_stats local_ip_pattern [json_rdd] =
         if local_ip_pattern (sourceIPv4Address json_rdd)
         then [(sourceIPv4Address json_rdd,
                {| short_inc_packets := 0;
                   short_out_packets := packetDeltaCount json_rdd;
                   short_source_IPv4s := ∅ |})]
         else [])
  ∧ (∀ w1 w2,
       incoming_small_flows_stats local_ip_pattern (w1 ++ w2) =
         incoming_small_flows_stats local_ip_pattern w1
         ++ incoming_small_flows_stats local_ip_pattern w2)
  ∧ (∀ w1 w2,
       outgoing_small_flows_stats local_ip_pattern (w1 ++ w2) =
         outgoing_small_flows_stats local_ip_pattern w1
         ++ outgoing_small_flows_stats local_ip_pattern w2).
Proof.
  split; [|split; [|split]].
  - intros r. unfold incoming_small_flows_stats. simpl.
    by destruct (local_ip_pattern (destinationIPv4Address r)).
  - intros r. unfold outgoing_small_flows_stats. simpl.
    by destruct (local_ip_pattern (sourceIPv4Address r)).
  - apply incoming_app.
  - apply outgoing_app.
Qed.

(** C5: at every tick the long tally of a host sums, for packets in and
    for packets out, the host's short tallies over the trailing
    [long_window_length / base_window_length] = 240 base windows, older
    windows no longer counting; a host with no tally in any of them is
    absent from the long mapping. *)
Theorem long_tally_sums_horizon (local_ip_pattern : string → bool)
    (filtered_stream_data : DStream flow) (k : nat) (h : string) :
  horizon = 240%nat
  ∧ (∀ j, j ∈ horizon_intervals k ↔ (j ≤ k ∧ k < j + horizon)%nat)
  ∧ (long_at local_ip_pattern filtered_stream_data k !! h = None ↔
       ∀ j, j ∈ horizon_intervals k →
            short_at local_ip_pattern filtered_stream_data j !! h = None)
  ∧ (∀ l, long_at local_ip_pattern filtered_stream_data k !! h = Some l →
       item0 l = sumZ ((λ j, from_option short_inc_packets 0
                               (short_at local_ip_pattern
                                         filtered_stream_data j !! h))
                       <$> horizon_intervals k)
       ∧ item1 l = sumZ ((λ j, from_option short_out_packets 0
                                 (short_at local_ip_pattern
                                           filtered_stream_data j !! h))
                         <$> horizon_intervals k)).
Proof.
  split; [exact horizon_240|].
  split; [intros j; apply elem_of_horizon_intervals|].
  split.
  - rewrite long_at_lookup, <- tallies_of_nil.
    destruct (tallies_of _ _ h (horizon_intervals k)); simpl; split;
      intros H; try reflexivity; discriminate.
  - intros l Hl. rewrite long_at_lookup in Hl.
    apply reduce1_long_merge in Hl as [H0 H1].
    rewrite H0, H1, <- !list_fmap_compose.
    split; apply tallies_of_sum.
Qed.

Lemma long_tally_sums_horizon_witness :
  item0 (Tuple2 7150005 1000100)
  = sumZ ((λ j, from_option short_inc_packets 0
                  (short_at in_10_10 stream0 j !! "10.10.0.1"))
          <$> horizon_intervals 1)
  ∧ item1 (Tuple2 7150005 1000100)
    = sumZ ((λ j, from_option short_out_packets 0
                    (short_at in_10_10 stream0 j !! "10.10.0.1"))
            <$> horizon_intervals 1).
Proof.
  destruct (long_tally_sums_horizon in_10_10 stream0 1 "10.10.0.1")
    as (_ & _ & _ & H).
  apply H. vm_compute. reflexivity.
Defined.

(** Window 0 leaves the horizon at step 240, window 1 at step 241. *)
Example long_window_evicts :
  long_at in_10_10 stream0 239 !! "10.10.0.1"
    = Some (Tuple2 7150005 1000100)
  ∧ long_at in_10_10 stream0 240 !! "10.10.0.1" = Some (Tuple3 burst0)
  ∧ long_at in_10_10 stream0 241 !! "10.10.0.1" = None.
Proof. vm_compute. auto. Qed.

(** The shape of a long tally: a host with a tally in one base window of
    the horizon keeps that 3-tuple, sources included; with tallies in two
    or more, the lambda has made a 2-tuple. *)
Lemma long_at_shape (local_ip_pattern : string → bool)
    (filtered_stream_data : DStream flow) (k : nat) (h : string) :
  match omap (λ j, short_at local_ip_pattern filtered_stream_data j !! h)
             (horizon_intervals k) with
  | [] => long_at local_ip_pattern filtered_stream_data k !! h = None
  | [s] =>
      long_at local_ip_pattern filtered_stream_data k !! h = Some (Tuple3 s)
  | _ :: _ :: _ =>
      ∃ i o,
        long_at local_ip_pattern filtered_stream_data k !! h
        = Some (Tuple2 i o)
  end.
Proof.
  rewrite long_at_lookup. unfold tallies_of.
  destruct (omap _ (horizon_intervals k)) as [|s [|s' rest]];
    [reflexivity | reflexivity |].
  rewrite !fmap_cons. unfold reduce1.
  destruct (foldl_long_merge_shape (Tuple3 s) (Tuple3 s') (Tuple3 <$> rest))
    as (i & o & H).
  exists i, o. by rewrite H.
Qed.

(** C6: with one flow to 10.10.0.1 in the only base window of the
    horizon, the long tally of the host is the short 3-tuple as it stands,
    and its third item is the set of sources. *)
Theorem long_tally_holds_sources_of_lone_window :
  long_at in_10_10 stream_single 0 !! "10.10.0.1"
  = Some (Tuple3 {| short_inc_packets := 5; short_out_packets := 0;
                    short_source_IPv4s := {[ "8.8.8.8" ]} |}).
Proof. vm_compute. reflexivity. Qed.

Lemma sources_at_reduceByKey (rdd : list (string * short_stats))
    (h : string) :
  sources_at (reduceByKey short_merge rdd) h
  = ⋃ (short_source_IPv4s <$> values_of h rdd).
Proof.
  unfold sources_at. rewrite reduceByKey_lookup.
  destruct (values_of h rdd) as [|v vs] eqn:Hv; [reflexivity|].
  destruct (reduce1_short_merge (v :: vs) _ eq_refl) as (_ & _ & H).
  exact H.
Qed.

(** C7: the sources of a host come from inbound values only. Putting the
    outbound value of a flow anywhere among the values of a base window
    changes no host's set of sources, and every source in a host's short
    tally is the source of a flow of the window sent to that host. *)
Theorem sources_only_from_inbound (local_ip_pattern : string → bool) :
  (∀ (pre post : list (string * short_stats)) (json_rdd : flow) (h : string),
     sources_at
       (reduceByKey short_merge
          (pre ++ outgoing_small_flows_stats local_ip_pattern [json_rdd]
               ++ post)) h
     = sources_at (reduceByKey short_merge (pre ++ post)) h)
  ∧ (∀ (w : list flow) (h : string) (s : short_stats) (x : string),
       small_window_aggregated local_ip_pattern w !! h = Some s →
       x ∈ short_source_IPv4s s →
       ∃ r, r ∈ w
            ∧ local_ip_pattern (destinationIPv4Address r) = true
            ∧ destinationIPv4Address r = h
            ∧ sourceIPv4Address r = x).
Proof.
  split.
  - intros pre post r h. rewrite !sources_at_reduceByKey.
    rewrite !values_of_app, !fmap_app, !union_list_app_L.
    rewrite outgoing_values_sources. by rewrite (left_id_L ∅ (∪)).
  - intros w h s x Hs Hx.
    pose proof (aggregated_local _ _ _ _ Hs) as Hloc.
    apply (aggregated_sources _ _ _ _ Hs) in Hx as (r & Hr & Hd & Hsrc).
    exists r. rewrite Hd. auto.
Qed.

Lemma sources_only_from_inbound_witness :
  ∃ r, r ∈ small_window stream0 1%nat
       ∧ in_10_10 (destinationIPv4Address r) = true
       ∧ destinationIPv4Address r = "10.10.0.1"
       ∧ sourceIPv4Address r = "7.7.7.7".
Proof.
  destruct (sources_only_from_inbound in_10_10) as [_ H].
  apply (H (small_window stream0 1%nat) "10.10.0.1" burst0 "7.7.7.7").
  - vm_compute. reflexivity.
  - vm_compute. reflexivity.
Defined.

(** C8: over the hosts of a sealed base window, the packets in of the short
    tallies add up to the packets of the inbound values of the window, which
    are the packet counts of its flows whose destination matches. *)
Theorem inbound_packets_conserved (local_ip_pattern : string → bool)
    (w : list flow) :
  sum_incoming (small_window_aggregated local_ip_pattern w)
  = sumZ ((λ kv, short_inc_packets kv.2)
          <$> incoming_small_flows_stats local_ip_pattern w)
  ∧ sumZ ((λ kv, short_inc_packets kv.2)
          <$> incoming_small_flows_stats local_ip_pattern w)
    = sumZ (packetDeltaCount
            <$> List.filter (λ r, local_ip_pattern (destinationIPv4Address r))
                            w).
Proof.
  split.
  - unfold small_window_aggregated.
    rewrite sum_incoming_reduceByKey, fmap_app, sumZ_app.
    rewrite (sumZ_zero (_ <$> outgoing_small_flows_stats _ _)); [lia|].
    intros z Hz. apply list_elem_of_fmap in Hz as ([k v] & -> & Hv).
    apply elem_of_outgoing in Hv as (r & _ & _ & _ & ->). reflexivity.
  - unfold incoming_small_flows_stats.
    induction (List.filter _ w) as [|r rs IH]; [reflexivity|].
    simpl map. rewrite !fmap_cons, !sumZ_cons, IH. reflexivity.
Qed.

(** The values of the three flows to 10.10.0.1 and the one to 10.10.0.2. *)
Example inbound_packets_conserved_stream0 :
  sum_incoming short0 = 150000 + 5 + 200000.
Proof. vm_compute. reflexivity. Qed.

(** C9: the attackers of an emitted alert are the elements of the set of
    sources in the host's short tally of the tick, each once: the sources
    of the flows of the base window sent to the host, and no other
    address. *)
Theorem attackers_are_inbound_sources (local_ip_pattern : string → bool)
    (filtered_stream_data : DStream flow) (k : nat) (alerts : list alert)
    (a : alert) :
  tick local_ip_pattern filtered_stream_data k = Ok alerts →
  a ∈ alerts →
  ∃ s, short_at local_ip_pattern filtered_stream_data k !! dst_ip a = Some s
       ∧ attackers a = elements (short_source_IPv4s s)
       ∧ NoDup (attackers a)
       ∧ ∀ x, x ∈ attackers a ↔
              ∃ r, r ∈ small_window filtered_stream_data k
                   ∧ destinationIPv4Address r = dst_ip a
                   ∧ sourceIPv4Address r = x.
Proof.
  rewrite tick_detect. intros Hdet Ha.
  apply (detect_elem _ _ _ Hdet) in Ha
    as (h & s & l & Hs & _ & _ & _ & _ & Hnew).
  apply new_entry_fields in Hnew as [Hdst Hatt]. simpl in Hdst, Hatt.
  exists s. rewrite Hdst, Hatt. split; [exact Hs|].
  split; [reflexivity|]. split; [apply NoDup_elements|].
  intros x. rewrite elem_of_elements.
  unfold short_at in Hs. apply (aggregated_sources _ _ _ _ Hs).
Qed.

Lemma attackers_are_inbound_sources_witness :
  ∃ s, short_at in_10_10 stream0 1 !! dst_ip alert0 = Some s
       ∧ attackers alert0 = elements (short_source_IPv4s s)
       ∧ NoDup (attackers alert0)
       ∧ ∀ x, x ∈ attackers alert0 ↔
              ∃ r, r ∈ small_window stream0 1%nat
                   ∧ destinationIPv4Address r = dst_ip alert0
                   ∧ sourceIPv4Address r = x.
Proof.
  apply (attackers_are_inbound_sources in_10_10 stream0 1 alerts0 alert0).
  - vm_compute. reflexivity.
  - vm_compute. apply list_elem_of_here.
Defined.

(** C10: an emitted alert names at least one attacker: its host took more
    than [minimal_incoming] packets in, so the base window holds a flow
    sent to it, and the source of that flow is in the set. *)
Theorem attackers_nonempty (local_ip_pattern : string → bool)
    (filtered_stream_data : DStream flow) (k : nat) (alerts : list alert)
    (a : alert) :
  tick local_ip_pattern filtered_stream_data k = Ok alerts →
  a ∈ alerts →
  attackers a ≠ [].
Proof.
  rewrite tick_detect. intros Hdet Ha.
  apply (detect_elem _ _ _ Hdet) in Ha
    as (h & s & l & Hs & _ & _ & _ & Hsus & Hnew).
  apply new_entry_fields in Hnew as [_ Hatt]. simpl in Hatt.
  apply suspicious_true in Hsus as (Hmin & _).
  unfold short_at in Hs.
  pose proof (aggregated_inc _ _ _ _ Hs) as Hinc.
  destruct (values_of h (incoming_small_flows_stats local_ip_pattern
                           (small_window filtered_stream_data k)))
    as [|v vs] eqn:Hv.
  - rewrite Hinc in Hmin. unfold minimal_incoming in Hmin.
    vm_compute in Hmin. discriminate.
  - assert (Hin : v ∈ values_of h
                    (incoming_small_flows_stats local_ip_pattern
                       (small_window filtered_stream_data k)))
      by (rewrite Hv; apply list_elem_of_here).
    apply elem_of_values_of, elem_of_incoming in Hin
      as (r & Hr & _ & Hd & _).
    assert (Hx : sourceIPv4Address r ∈ short_source_IPv4s s).
    { apply (aggregated_sources _ _ _ _ Hs). exists r. auto. }
    rewrite Hatt. intros Hnil.
    apply elem_of_elements in Hx. rewrite Hnil in Hx.
    by apply elem_of_nil in Hx.
Qed.

Lemma attackers_nonempty_witness : attackers alert0 ≠ [].
Proof.
  apply (attackers_nonempty in_10_10 stream0 1 alerts0).
  - vm_compute. reflexivity.
  - vm_compute. apply list_elem_of_here.
Defined.


(** * Further properties *)

(** ** Further properties of the detector *)

(** X2: every alert of a tick is for a host that matches the network
    filter. *)
Theorem alert_hosts_match_filter (local_ip_pattern : string → bool)
    (filtered_stream_data : DStream flow) (k : nat) (alerts : list alert)
    (a : alert) :
  tick local_ip_pattern filtered_stream_data k = Ok alerts →
  a ∈ alerts →
  local_ip_pattern (dst_ip a) = true.
Proof.
  rewrite tick_detect. intros Hdet Ha.
  apply (detect_elem _ _ _ Hdet) in Ha
    as (h & s & l & Hs & _ & _ & _ & _ & Hnew).
  apply new_entry_fields in Hnew as [-> _]. simpl.
  unfold short_at in Hs. by apply aggregated_local in Hs.
Qed.

Lemma alert_hosts_match_filter_witness : in_10_10 (dst_ip alert0) = true.
Proof.
  apply (alert_hosts_match_filter in_10_10 stream0 1 alerts0 alert0).
  - vm_compute. reflexivity.
  - vm_compute. apply list_elem_of_here.
Defined.

Lemma new_entry_ratios (h : string) (s : short_stats) (l : long_stats)
    (a : alert) :
  new_entry (h, (s, l)) = Ok a →
  ratio (short_inc_packets s) (short_out_packets s) = Ok (shortratio a)
  ∧ ratio (item0 l) (item1 l) = Ok (longratio a).
Proof.
  rewrite new_entry_eq. intros H.
  apply bind_Ok in H as (sr & Hsr & H). apply bind_Ok in H as (lr & Hlr & H).
  inversion H. auto.
Qed.

(** X3: an alert carries the ratios that set it off: [shortratio] and
    [longratio] are the two ratios of its host's tallies as the filter
    computed them, the short one exceeds 50 times the long one, and the
    host took more than 100000 packets in. *)
Theorem alert_reports_its_ratios (short : gmap string short_stats)
    (long : gmap string long_stats) (alerts : list alert) (a : alert) :
  detect short long = Ok alerts →
  a ∈ alerts →
  ∃ s l,
    short !! dst_ip a = Some s ∧ long !! dst_ip a = Some l
    ∧ ratio (short_inc_packets s) (short_out_packets s) = Ok (shortratio a)
    ∧ ratio (item0 l) (item1 l) = Ok (longratio a)
    ∧ 100000 < short_inc_packets s
    ∧ gt (shortratio a) (longratio a * 50)%float = true.
Proof.
  intros Hdet Ha.
  apply (detect_elem _ _ _ Hdet) in Ha
    as (h & s & l & Hs & Hl & _ & _ & Hsus & Hnew).
  pose proof (new_entry_fields _ _ Hnew) as [Hdst _]. simpl in Hdst.
  apply new_entry_ratios in Hnew as [Hsr Hlr].
  apply suspicious_true in Hsus as (Hmin & sr & lr & Hsr' & Hlr' & Hgt).
  exists s, l. rewrite Hdst.
  assert (sr = shortratio a) by congruence.
  assert (lr = longratio a) by congruence. subst sr lr.
  auto 10.
Qed.

Lemma alert_reports_its_ratios_witness :
  ∃ s l,
    short0 !! dst_ip alert0 = Some s ∧ long0 !! dst_ip alert0 = Some l
    ∧ ratio (short_inc_packets s) (short_out_packets s)
      = Ok (shortratio alert0)
    ∧ ratio (item0 l) (item1 l) = Ok (longratio alert0)
    ∧ 100000 < short_inc_packets s
    ∧ gt (shortratio alert0) (longratio alert0 * 50)%float = true.
Proof.
  apply (alert_reports_its_ratios short0 long0 alerts0 alert0).
  - vm_compute. reflexivity.
  - vm_compute. apply list_elem_of_here.
Defined.

Lemma horizon_intervals_current (k : nat) : k ∈ horizon_intervals k.
Proof. apply elem_of_horizon_intervals. rewrite horizon_240. lia. Qed.

(** X4: at every tick the long mapping has every host of the short
    mapping, the long window ending with the base window just sealed; the
    join then keeps the hosts of the short mapping, all of them. *)
Theorem short_hosts_in_long (local_ip_pattern : string → bool)
    (filtered_stream_data : DStream flow) (k : nat) (h : string) :
  (is_Some (short_at local_ip_pattern filtered_stream_data k !! h) →
   is_Some (long_at local_ip_pattern filtered_stream_data k !! h))
  ∧ (is_Some (windows_union
                (short_at local_ip_pattern filtered_stream_data k)
                (long_at local_ip_pattern filtered_stream_data k) !! h)
     ↔ is_Some (short_at local_ip_pattern filtered_stream_data k !! h)).
Proof.
  assert (Hin : is_Some (short_at local_ip_pattern filtered_stream_data k !! h)
                → is_Some (long_at local_ip_pattern filtered_stream_data k
                             !! h)).
  { intros [s Hs].
    destruct (long_at local_ip_pattern filtered_stream_data k !! h)
      as [l|] eqn:Hl; [by exists l|].
    rewrite long_at_lookup in Hl.
    destruct (tallies_of local_ip_pattern filtered_stream_data h
                (horizon_intervals k)) as [|v vs] eqn:Ht; [|discriminate].
    pose proof (proj1 (tallies_of_nil _ _ _ _) Ht k
                  (horizon_intervals_current k)) as Hk.
    congruence. }
  split; [exact Hin|].
  rewrite windows_union_lookup. split.
  - destruct (short_at _ _ k !! h) as [s|]; [by exists s|].
    intros [x Hx]. discriminate.
  - intros Hs. destruct (Hin Hs) as [l Hl]. destruct Hs as [s Hs].
    rewrite Hs, Hl. by exists (s, l).
Qed.

Lemma short_hosts_in_long_witness :
  is_Some (long_at in_10_10 stream0 1 !! "10.10.0.2").
Proof.
  destruct (short_hosts_in_long in_10_10 stream0 1 "10.10.0.2") as [H _].
  apply H. exists sink0. vm_compute. reflexivity.
Defined.

(** ** Further properties of the short window *)

Section short_window_tallies.
Variable local_ip_pattern : string → bool.

Local Abbreviation incoming := (incoming_small_flows_stats local_ip_pattern).
Local Abbreviation outgoing := (outgoing_small_flows_stats local_ip_pattern).
Local Abbreviation aggregated := (small_window_aggregated local_ip_pattern).

Lemma incoming_cons (r : flow) (w : list flow) :
  incoming (r :: w) =
    if local_ip_pattern (destinationIPv4Address r)
    then (destinationIPv4Address r,
          {| short_inc_packets := packetDeltaCount r;
             short_out_packets := 0;
             short_source_IPv4s := {[ sourceIPv4Address r ]} |}) :: incoming w
    else incoming w.
Proof.
  unfold incoming_small_flows_stats. simpl.
  by destruct (local_ip_pattern (destinationIPv4Address r)).
Qed.

Lemma outgoing_cons (r : flow) (w : list flow) :
  outgoing (r :: w) =
    if local_ip_pattern (sourceIPv4Address r)
    then (sourceIPv4Address r,
          {| short_inc_packets := 0;
             short_out_packets := packetDeltaCount r;
             short_source_IPv4s := ∅ |}) :: outgoing w
    else outgoing w.
Proof.
  unfold outgoing_small_flows_stats. simpl.
  by destruct (local_ip_pattern (sourceIPv4Address r)).
Qed.

Lemma incoming_values_inc (w : list flow) (h : string) :
  local_ip_pattern h = true →
  sumZ (short_inc_packets <$> values_of h (incoming w))
  = sumZ (packetDeltaCount
          <$> filter (λ r, destinationIPv4Address r = h) w).
Proof.
  intros Hloc. induction w as [|r w IH]; [reflexivity|].
  rewrite incoming_cons, filter_cons.
  destruct (decide (destinationIPv4Address r = h)) as [Hd|Hd].
  - rewrite Hd, Hloc, values_of_cons. simpl.
    destruct (decide (h = h)); [|contradiction].
    by rewrite !fmap_cons, !sumZ_cons, IH.
  - destruct (local_ip_pattern (destinationIPv4Address r)); [|exact IH].
    rewrite values_of_cons. simpl.
    destruct (decide (destinationIPv4Address r = h)); [contradiction|].
    exact IH.
Qed.

Lemma outgoing_values_out (w : list flow) (h : string) :
  local_ip_pattern h = true →
  sumZ (short_out_packets <$> values_of h (outgoing w))
  = sumZ (packetDeltaCount <$> filter (λ r, sourceIPv4Address r = h) w).
Proof.
  intros Hloc. induction w as [|r w IH]; [reflexivity|].
  rewrite outgoing_cons, filter_cons.
  destruct (decide (sourceIPv4Address r = h)) as [Hd|Hd].
  - rewrite Hd, Hloc, values_of_cons. simpl.
    destruct (decide (h = h)); [|contradiction].
    by rewrite !fmap_cons, !sumZ_cons, IH.
  - destruct (local_ip_pattern (sourceIPv4Address r)); [|exact IH].
    rewrite values_of_cons. simpl.
    destruct (decide (sourceIPv4Address r = h)); [contradiction|].
    exact IH.
Qed.

Lemma incoming_values_out (w : list flow) (h : string) :
  sumZ (short_out_packets <$> values_of h (incoming w)) = 0.
Proof.
  apply sumZ_zero. intros z Hz.
  apply list_elem_of_fmap in Hz as (v & -> & Hv).
  apply elem_of_values_of, elem_of_incoming in Hv as (r & _ & _ & _ & ->).
  reflexivity.
Qed.

Lemma aggregated_is_Some (w : list flow) (h : string) :
  is_Some (aggregated w !! h) ↔
    local_ip_pattern h = true
    ∧ ∃ r, r ∈ w ∧ (destinationIPv4Address r = h ∨ sourceIPv4Address r = h).
Proof.
  split.
  - intros [s Hs]. split; [by apply aggregated_local in Hs|].
    rewrite aggregated_lookup in Hs.
    destruct (values_of h (incoming w)) as [|v vs] eqn:Hin.
    + destruct (values_of h (outgoing w)) as [|v vs] eqn:Hout;
        [discriminate|].
      assert (Hv : v ∈ values_of h (outgoing w))
        by (rewrite Hout; apply list_elem_of_here).
      apply elem_of_values_of, elem_of_outgoing in Hv
        as (r & Hr & _ & Hsrc & _).
      exists r. auto.
    + assert (Hv : v ∈ values_of h (incoming w))
        by (rewrite Hin; apply list_elem_of_here).
      apply elem_of_values_of, elem_of_incoming in Hv
        as (r & Hr & _ & Hd & _).
      exists r. auto.
  - intros (Hloc & r & Hr & Hrh). rewrite aggregated_lookup.
    assert (Hne : values_of h (incoming w) ++ values_of h (outgoing w) ≠ []).
    { destruct Hrh as [Hd|Hsrc].
      - assert (Hv : {| short_inc_packets := packetDeltaCount r;
                        short_out_packets := 0;
                        short_source_IPv4s := {[ sourceIPv4Address r ]} |}
                     ∈ values_of h (incoming w)).
        { apply elem_of_values_of, elem_of_incoming. exists r.
          rewrite Hd. auto. }
        intros Hnil. apply app_eq_nil in Hnil as [Hnil _].
        rewrite Hnil in Hv. by apply elem_of_nil in Hv.
      - assert (Hv : {| short_inc_packets := 0;
                        short_out_packets := packetDeltaCount r;
                        short_source_IPv4s := ∅ |}
                     ∈ values_of h (outgoing w)).
        { apply elem_of_values_of, elem_of_outgoing. exists r.
          rewrite Hsrc. auto. }
        intros Hnil. apply app_eq_nil in Hnil as [_ Hnil].
        rewrite Hnil in Hv. by apply elem_of_nil in Hv. }
    destruct (values_of h (incoming w) ++ values_of h (outgoing w));
      [contradiction|]. simpl. eauto.
Qed.

Lemma aggregated_out (w : list flow) (h : string) (s : short_stats) :
  aggregated w !! h = Some s →
  short_out_packets s = sumZ (short_out_packets <$> values_of h (outgoing w)).
Proof.
  rewrite aggregated_lookup. intros H.
  apply reduce1_short_merge in H as (_ & Ho & _).
  rewrite Ho, fmap_app, sumZ_app, incoming_values_out. lia.
Qed.

End short_window_tallies.

(** X5: the short mapping of a base window has a host exactly when the host
    matches the network filter and some flow of the window has it as
    destination or as source; its packets in are then the packets of the
    flows sent to it and its packets out those of the flows it sent. *)
Theorem short_tally_of_host (local_ip_pattern : string → bool)
    (w : list flow) (h : string) :
  (is_Some (small_window_aggregated local_ip_pattern w !! h) ↔
     local_ip_pattern h = true
     ∧ ∃ r, r ∈ w ∧ (destinationIPv4Address r = h ∨ sourceIPv4Address r = h))
  ∧ (∀ s, small_window_aggregated local_ip_pattern w !! h = Some s →
       short_inc_packets s
       = sumZ (packetDeltaCount
               <$> filter (λ r, destinationIPv4Address r = h) w)
       ∧ short_out_packets s
         = sumZ (packetDeltaCount
                 <$> filter (λ r, sourceIPv4Address r = h) w)).
Proof.
  split; [apply aggregated_is_Some|].
  intros s Hs. pose proof (aggregated_local _ _ _ _ Hs) as Hloc.
  rewrite (aggregated_inc _ _ _ _ Hs), (aggregated_out _ _ _ _ Hs).
  split.
  - by apply incoming_values_inc.
  - by apply outgoing_values_out.
Qed.

Lemma short_tally_of_host_witness :
  short_inc_packets burst0
  = sumZ (packetDeltaCount
          <$> filter (λ r, destinationIPv4Address r = "10.10.0.1")
                     (small_window stream0 1%nat))
  ∧ short_out_packets burst0
    = sumZ (packetDeltaCount
            <$> filter (λ r, sourceIPv4Address r = "10.10.0.1")
                       (small_window stream0 1%nat)).
Proof.
  destruct (short_tally_of_host in_10_10 (small_window stream0 1%nat)
              "10.10.0.1") as [_ H].
  apply H. vm_compute. reflexivity.
Defined.

(** ** Further properties of the windows *)

Lemma small_window_eq (filtered_stream_data : DStream flow) (k : nat) :
  small_window filtered_stream_data k
  = concat (map filtered_stream_data (seq (30 * k) 30)).
Proof.
  unfold small_window, window.
  replace (Z.to_nat (base_window_length / microbatch)) with 30%nat
    by reflexivity.
  f_equal. f_equal.
  replace ((k + 1) * Z.to_nat (base_window_length / microbatch))%nat
    with (30 * k + 30)%nat by (change (Z.to_nat (base_window_length / microbatch)) with 30%nat; lia).
  f_equal; lia.
Qed.

(** X6: the base windows cut the stream of microbatches into consecutive
    blocks of 30: base window [k] is microbatches [30 k] to [30 k + 29],
    and the first [n] base windows together are the first [30 n]
    microbatches, each flow once and in order. *)
Theorem base_windows_partition_stream (filtered_stream_data : DStream flow) :
  (∀ k, small_window filtered_stream_data k
        = concat (map filtered_stream_data (seq (30 * k) 30)))
  ∧ (∀ n, concat (map (small_window filtered_stream_data) (seq 0 n))
          = concat (map filtered_stream_data (seq 0 (30 * n)))).
Proof.
  split; [apply small_window_eq|].
  induction n as [|n IH]; [reflexivity|].
  rewrite seq_S, map_app, concat_app, IH, Nat.add_0_l.
  cbn [map concat]. rewrite app_nil_r, small_window_eq.
  replace (30 * S n)%nat with (30 * n + 30)%nat by lia.
  by rewrite seq_app, map_app, concat_app, Nat.add_0_l.
Qed.

(** ** Order and grouping of the reductions *)

Lemma sumZ_perm (l1 l2 : list Z) : l1 ≡ₚ l2 → sumZ l1 = sumZ l2.
Proof.
  induction 1 as [|x l1 l2 _ IH|x y l|l1 l2 l3 _ IH1 _ IH2].
  - reflexivity.
  - by rewrite !sumZ_cons, IH.
  - rewrite !sumZ_cons. lia.
  - congruence.
Qed.

Lemma union_list_perm (Xs Ys : list (gset string)) :
  Xs ≡ₚ Ys → ⋃ Xs = ⋃ Ys.
Proof.
  induction 1 as [|X Xs Ys _ IH|X Y Xs|Xs Ys Zs _ IH1 _ IH2].
  - reflexivity.
  - simpl. by rewrite IH.
  - simpl. rewrite !(assoc_L (∪)). by rewrite (comm_L (∪) Y X).
  - congruence.
Qed.

Lemma values_of_perm {V} (h : string) (rdd1 rdd2 : list (string * V)) :
  rdd1 ≡ₚ rdd2 → values_of h rdd1 ≡ₚ values_of h rdd2.
Proof. intros H. unfold values_of. by rewrite H. Qed.

Lemma short_stats_eq (s1 s2 : short_stats) :
  short_inc_packets s1 = short_inc_packets s2 →
  short_out_packets s1 = short_out_packets s2 →
  short_source_IPv4s s1 = short_source_IPv4s s2 →
  s1 = s2.
Proof. destruct s1, s2. simpl. by intros -> -> ->. Qed.

Lemma reduce1_short_merge_perm (vs1 vs2 : list short_stats) :
  vs1 ≡ₚ vs2 → reduce1 short_merge vs1 = reduce1 short_merge vs2.
Proof.
  intros H.
  destruct (reduce1 short_merge vs1) as [s1|] eqn:H1,
           (reduce1 short_merge vs2) as [s2|] eqn:H2.
  - apply reduce1_short_merge in H1 as (Hi1 & Ho1 & Hs1).
    apply reduce1_short_merge in H2 as (Hi2 & Ho2 & Hs2).
    f_equal. apply short_stats_eq.
    + rewrite Hi1, Hi2. apply sumZ_perm. by rewrite H.
    + rewrite Ho1, Ho2. apply sumZ_perm. by rewrite H.
    + rewrite Hs1, Hs2. apply union_list_perm. by rewrite H.
  - destruct vs2; [|discriminate]. apply Permutation_nil_r in H. by subst.
  - destruct vs1; [|discriminate]. apply Permutation_nil_l in H. by subst.
  - reflexivity.
Qed.

Lemma reduce1_long_merge_value (vs : list long_stats) :
  reduce1 long_merge vs =
    match vs with
    | [] => None
    | [v] => Some v
    | _ :: _ :: _ =>
        Some (Tuple2 (sumZ (item0 <$> vs)) (sumZ (item1 <$> vs)))
    end.
Proof.
  destruct vs as [|v [|u rest]]; [reflexivity | reflexivity |].
  unfold reduce1. f_equal.
  destruct (foldl_long_merge_shape v u rest) as (i & o & Hshape).
  destruct (foldl_long_merge v (u :: rest)) as [H0 H1].
  rewrite Hshape in H0, H1. simpl in H0, H1.
  rewrite Hshape, H0, H1. by rewrite !fmap_cons, !sumZ_cons.
Qed.

Lemma reduce1_long_merge_perm (vs1 vs2 : list long_stats) :
  vs1 ≡ₚ vs2 → reduce1 long_merge vs1 = reduce1 long_merge vs2.
Proof.
  intros H. rewrite !reduce1_long_merge_value.
  pose proof (Permutation_length H) as Hlen.
  destruct vs1 as [|v1 [|u1 r1]], vs2 as [|v2 [|u2 r2]];
    try discriminate; try reflexivity.
  - apply Permutation_singleton_l in H. by inversion H.
  - f_equal. f_equal; apply sumZ_perm; by rewrite H.
Qed.

Lemma incoming_perm (local_ip_pattern : string → bool) (w1 w2 : list flow) :
  w1 ≡ₚ w2 →
  incoming_small_flows_stats local_ip_pattern w1
  ≡ₚ incoming_small_flows_stats local_ip_pattern w2.
Proof.
  induction 1 as [|r w1 w2 _ IH|r r' w|w1 w2 w3 _ IH1 _ IH2].
  - reflexivity.
  - rewrite !incoming_cons. destruct (local_ip_pattern _); by rewrite IH.
  - rewrite !incoming_cons.
    destruct (local_ip_pattern (destinationIPv4Address r)),
             (local_ip_pattern (destinationIPv4Address r'));
      try reflexivity. apply perm_swap.
  - by rewrite IH1.
Qed.

Lemma outgoing_perm (local_ip_pattern : string → bool) (w1 w2 : list flow) :
  w1 ≡ₚ w2 →
  outgoing_small_flows_stats local_ip_pattern w1
  ≡ₚ outgoing_small_flows_stats local_ip_pattern w2.
Proof.
  induction 1 as [|r w1 w2 _ IH|r r' w|w1 w2 w3 _ IH1 _ IH2].
  - reflexivity.
  - rewrite !outgoing_cons. destruct (local_ip_pattern _); by rewrite IH.
  - rewrite !outgoing_cons.
    destruct (local_ip_pattern (sourceIPv4Address r)),
             (local_ip_pattern (sourceIPv4Address r'));
      try reflexivity. apply perm_swap.
  - by rewrite IH1.
Qed.

Lemma small_window_aggregated_perm (local_ip_pattern : string → bool)
    (w1 w2 : list flow) :
  w1 ≡ₚ w2 →
  small_window_aggregated local_ip_pattern w1
  = small_window_aggregated local_ip_pattern w2.
Proof.
  intros H. apply map_eq. intros h. unfold small_window_aggregated.
  rewrite !reduceByKey_lookup. apply reduce1_short_merge_perm, values_of_perm.
  by rewrite (incoming_perm _ _ _ H), (outgoing_perm _ _ _ H).
Qed.

(** X7: the order of the elements of an RDD does not matter to either
    reduction: the short mapping is the same for any order of the values to
    reduce and for any order of the flows of the base window, and the long
    mapping for any order of the tallies of the long window. *)
Theorem aggregation_order_independent (local_ip_pattern : string → bool) :
  (∀ rdd1 rdd2 : list (string * short_stats),
     rdd1 ≡ₚ rdd2 →
     reduceByKey short_merge rdd1 = reduceByKey short_merge rdd2)
  ∧ (∀ w1 w2 : list flow,
       w1 ≡ₚ w2 →
       small_window_aggregated local_ip_pattern w1
       = small_window_aggregated local_ip_pattern w2)
  ∧ (∀ u1 u2 : list (string * short_stats),
       u1 ≡ₚ u2 → long_window_aggregated u1 = long_window_aggregated u2).
Proof.
  split; [|split].
  - intros rdd1 rdd2 H. apply map_eq. intros h.
    rewrite !reduceByKey_lookup.
    by apply reduce1_short_merge_perm, values_of_perm.
  - apply small_window_aggregated_perm.
  - intros u1 u2 H. apply map_eq. intros h. unfold long_window_aggregated.
    rewrite !reduceByKey_lookup, !values_of_fmap.
    apply reduce1_long_merge_perm. by rewrite (values_of_perm h _ _ H).
Qed.

Lemma aggregation_order_independent_witness :
  small_window_aggregated in_10_10
    [flow_of "8.8.8.8" "10.10.0.1" 150000; flow_of "10.10.0.1" "9.9.9.9" 100]
  = small_window_aggregated in_10_10
      [flow_of "10.10.0.1" "9.9.9.9" 100; flow_of "8.8.8.8" "10.10.0.1" 150000].
Proof.
  destruct (aggregation_order_independent in_10_10) as (_ & H & _).
  apply H. apply perm_swap.
Defined.

(** Reducing two parts of an RDD apart and merging the two results key by
    key, as Spark does across partitions, is reducing the whole. *)
Lemma foldl_assoc {V} (func : V → V → V)
    (Hassoc : ∀ a b c, func a (func b c) = func (func a b) c)
    (a b : V) (vs : list V) :
  foldl func (func a b) vs = func a (foldl func b vs).
Proof.
  revert b. induction vs as [|v vs IH]; intros b; [reflexivity|].
  simpl. by rewrite <- Hassoc, IH.
Qed.

Lemma reduce1_app {V} (func : V → V → V)
    (Hassoc : ∀ a b c, func a (func b c) = func (func a b) c)
    (vs1 vs2 : list V) :
  reduce1 func (vs1 ++ vs2)
  = union_with (λ a b, Some (func a b)) (reduce1 func vs1) (reduce1 func vs2).
Proof.
  destruct vs1 as [|a r1].
  { simpl. destruct (reduce1 func vs2); reflexivity. }
  destruct vs2 as [|b r2]; [by rewrite app_nil_r|].
  simpl. rewrite foldl_app. simpl. rewrite foldl_assoc by exact Hassoc.
  reflexivity.
Qed.

(** X8: reducing two parts of an RDD apart and merging the two mappings
    key by key with the same lambda gives the mapping of the whole RDD, for
    both lambdas of the script. *)
Theorem reduceByKey_by_parts :
  (∀ rdd1 rdd2 : list (string * short_stats),
     reduceByKey short_merge (rdd1 ++ rdd2)
     = union_with (λ a b, Some (short_merge a b))
         (reduceByKey short_merge rdd1) (reduceByKey short_merge rdd2))
  ∧ (∀ rdd1 rdd2 : list (string * long_stats),
       reduceByKey long_merge (rdd1 ++ rdd2)
       = union_with (λ a b, Some (long_merge a b))
           (reduceByKey long_merge rdd1) (reduceByKey long_merge rdd2)).
Proof.
  split; intros rdd1 rdd2; apply map_eq; intros h;
    rewrite lookup_union_with, !reduceByKey_lookup, values_of_app.
  - apply reduce1_app, short_merge_assoc.
  - apply reduce1_app, long_merge_assoc.
Qed.

(** ** What a tick depends on *)

Lemma concat_map_perm {A} (f g : nat → list A) (js : list nat) :
  (∀ j, j ∈ js → f j ≡ₚ g j) → concat (map f js) ≡ₚ concat (map g js).
Proof.
  induction js as [|j js IH]; intros H; [reflexivity|].
  simpl. rewrite (H j) by apply list_elem_of_here.
  rewrite IH; [reflexivity|]. intros j' Hj'. apply H.
  by apply list_elem_of_further.
Qed.

Lemma map_ext_elem {A B} (f g : A → B) (l : list A) :
  (∀ x, x ∈ l → f x = g x) → map f l = map g l.
Proof.
  intros H. apply map_ext_in. intros x Hx. apply H.
  by apply list_elem_of_In.
Qed.

Lemma long_at_ext (local_ip_pattern : string → bool)
    (st1 st2 : DStream flow) (k : nat) :
  (∀ j, j ∈ horizon_intervals k →
        short_at local_ip_pattern st1 j = short_at local_ip_pattern st2 j) →
  long_at local_ip_pattern st1 k = long_at local_ip_pattern st2 k.
Proof.
  intros H. unfold long_at. rewrite !union_long_flows_eq.
  f_equal. f_equal. apply map_ext_elem. intros j Hj. by rewrite (H j Hj).
Qed.

Lemma same_alert_refl (a : alert) : same_alert a a.
Proof. unfold same_alert. auto. Qed.

Lemma same_outcome_refl (r : result (list alert)) : same_outcome r r.
Proof.
  destruct r as [alerts|e]; simpl; [|reflexivity].
  exists alerts. split; [reflexivity|].
  induction alerts; constructor; auto using same_alert_refl.
Qed.

(** X9: tick [k] depends on nothing but the flows of the last 7200 seconds,
    and not on their order inside a microbatch: two streams whose
    microbatches [30 (k + 1 - 240)] to [30 (k + 1) - 1] hold the same
    flows, in any order, have the same short mapping and the same long
    mapping at tick [k], and the same outcome: the same exception, or the
    same entries up to their order and the order of their attackers. *)
Theorem tick_depends_on_horizon (local_ip_pattern : string → bool)
    (st1 st2 : DStream flow) (k : nat) :
  (∀ i, (30 * (k + 1 - 240) ≤ i < 30 * (k + 1))%nat → st1 i ≡ₚ st2 i) →
  short_at local_ip_pattern st1 k = short_at local_ip_pattern st2 k
  ∧ long_at local_ip_pattern st1 k = long_at local_ip_pattern st2 k
  ∧ same_outcome (tick local_ip_pattern st1 k) (tick local_ip_pattern st2 k).
Proof.
  intros H.
  assert (Hshort : ∀ j, j ∈ horizon_intervals k →
            short_at local_ip_pattern st1 j = short_at local_ip_pattern st2 j).
  { intros j Hj. apply elem_of_horizon_intervals in Hj.
    rewrite horizon_240 in Hj. unfold short_at.
    apply small_window_aggregated_perm. rewrite !small_window_eq.
    apply concat_map_perm. intros i Hi. apply elem_of_seq in Hi.
    apply H. lia. }
  pose proof (Hshort k (horizon_intervals_current k)) as Hs.
  pose proof (long_at_ext _ _ _ _ Hshort) as Hl.
  split; [exact Hs|]. split; [exact Hl|].
  rewrite !tick_detect, Hs, Hl. apply same_outcome_refl.
Qed.

Lemma tick_depends_on_horizon_witness :
  short_at in_10_10 stream0 1 = short_at in_10_10 stream0_shuffled 1
  ∧ long_at in_10_10 stream0 1 = long_at in_10_10 stream0_shuffled 1
  ∧ same_outcome (tick in_10_10 stream0 1) (tick in_10_10 stream0_shuffled 1).
Proof.
  apply (tick_depends_on_horizon in_10_10 stream0 stream0_shuffled 1).
  intros i _.
  destruct i as [|i]; [apply perm_swap|].
  do 29 (destruct i as [|i]; [reflexivity|]).
  destruct i as [|i]; [|reflexivity].
  simpl. apply Permutation_rev.
Defined.

(** X10: a host is alerted only if the base window just sealed holds a flow
    sent to it and a flow sent by it; a base window with no flow gives a
    tick with no alert and no exception, whatever the long window holds. *)
Theorem alert_needs_traffic_both_ways (local_ip_pattern : string → bool)
    (filtered_stream_data : DStream flow) (k : nat) :
  (∀ alerts a,
     tick local_ip_pattern filtered_stream_data k = Ok alerts →
     a ∈ alerts →
     (∃ r, r ∈ small_window filtered_stream_data k
           ∧ destinationIPv4Address r = dst_ip a)
     ∧ (∃ r, r ∈ small_window filtered_stream_data k
             ∧ sourceIPv4Address r = dst_ip a))
  ∧ (small_window filtered_stream_data k = [] →
     tick local_ip_pattern filtered_stream_data k = Ok []).
Proof.
  split.
  - intros alerts a. rewrite tick_detect. intros Hdet Ha.
    apply (detect_elem _ _ _ Hdet) in Ha
      as (h & s & l & Hs & _ & Hns & _ & Hsus & Hnew).
    apply new_entry_fields in Hnew as [-> _]. simpl.
    apply suspicious_true in Hsus as (Hmin & _).
    unfold short_at in Hs. split.
    + destruct (values_of h (incoming_small_flows_stats local_ip_pattern
                               (small_window filtered_stream_data k)))
        as [|v vs] eqn:Hv.
      * rewrite (aggregated_inc _ _ _ _ Hs), Hv in Hmin.
        vm_compute in Hmin. discriminate.
      * assert (Hin : v ∈ values_of h
                        (incoming_small_flows_stats local_ip_pattern
                           (small_window filtered_stream_data k)))
          by (rewrite Hv; apply list_elem_of_here).
        apply elem_of_values_of, elem_of_incoming in Hin
          as (r & Hr & _ & Hd & _).
        exists r. auto.
    + destruct (values_of h (outgoing_small_flows_stats local_ip_pattern
                               (small_window filtered_stream_data k)))
        as [|v vs] eqn:Hv.
      * rewrite (aggregated_out _ _ _ _ Hs), Hv in Hns. contradiction.
      * assert (Hin : v ∈ values_of h
                        (outgoing_small_flows_stats local_ip_pattern
                           (small_window filtered_stream_data k)))
          by (rewrite Hv; apply list_elem_of_here).
        apply elem_of_values_of, elem_of_outgoing in Hin
          as (r & Hr & _ & Hd & _).
        exists r. auto.
  - intros Hw. unfold tick, inspect_ddos, short_at. rewrite Hw.
    unfold windows_union_filtered.
    replace (nonzero_union (small_window_aggregated local_ip_pattern [])
               (long_at local_ip_pattern filtered_stream_data k))
      with (∅ : gmap string (short_stats * long_stats)).
    + rewrite map_to_list_empty. reflexivity.
    + symmetry. apply map_eq. intros h. rewrite lookup_empty.
      apply eq_None_not_Some. intros [[s l] Hsl].
      apply nonzero_union_lookup in Hsl as (Hs & _).
      unfold small_window_aggregated in Hs. simpl in Hs.
      unfold reduceByKey in Hs. simpl in Hs.
      by rewrite lookup_empty in Hs.
Qed.

Lemma alert_needs_traffic_both_ways_witness :
  tick in_10_10 stream0 5 = Ok [].
Proof.
  destruct (alert_needs_traffic_both_ways in_10_10 stream0 5) as [_ H].
  apply H. vm_compute. reflexivity.
Defined.

(** ** Long and short tallies of counted packets *)

Lemma sumZ_nonneg (l : list Z) : (∀ z, z ∈ l → 0 ≤ z) → 0 ≤ sumZ l.
Proof.
  induction l as [|z l IH]; intros H; [reflexivity|].
  rewrite sumZ_cons.
  pose proof (H z (list_elem_of_here _ _)).
  assert (0 ≤ sumZ l); [|lia].
  apply IH. intros z' Hz'. apply H. by apply list_elem_of_further.
Qed.

Lemma sumZ_ge_elem {A} (f : A → Z) (l : list A) (x : A) :
  (∀ y, y ∈ l → 0 ≤ f y) → x ∈ l → f x ≤ sumZ (f <$> l).
Proof.
  induction l as [|y l IH]; intros H Hx; [by apply elem_of_nil in Hx|].
  rewrite fmap_cons, sumZ_cons.
  assert (Hl : 0 ≤ sumZ (f <$> l)).
  { apply sumZ_nonneg. intros z Hz.
    apply list_elem_of_fmap in Hz as (y' & -> & Hy').
    apply H. by apply list_elem_of_further. }
  apply elem_of_cons in Hx as [->|Hx]; [lia|].
  pose proof (H y (list_elem_of_here _ _)).
  assert (f x ≤ sumZ (f <$> l)); [|lia].
  apply IH; [|exact Hx]. intros y' Hy'. apply H.
  by apply list_elem_of_further.
Qed.

Lemma elem_of_small_window (filtered_stream_data : DStream flow) (k : nat)
    (r : flow) :
  r ∈ small_window filtered_stream_data k →
  ∃ i, r ∈ filtered_stream_data i.
Proof.
  rewrite small_window_eq. intros H.
  apply list_elem_of_In, in_concat in H as (l & Hl & Hr).
  apply in_map_iff in Hl as (i & <- & _).
  exists i. by apply list_elem_of_In.
Qed.

Lemma short_at_nonneg (local_ip_pattern : string → bool)
    (filtered_stream_data : DStream flow) (j : nat) (h : string)
    (s : short_stats) :
  (∀ i r, r ∈ filtered_stream_data i → 0 ≤ packetDeltaCount r) →
  short_at local_ip_pattern filtered_stream_data j !! h = Some s →
  0 ≤ short_inc_packets s ∧ 0 ≤ short_out_packets s.
Proof.
  intros Hpos Hs. unfold short_at in Hs.
  pose proof (aggregated_local _ _ _ _ Hs) as Hloc.
  rewrite (aggregated_inc _ _ _ _ Hs), (aggregated_out _ _ _ _ Hs).
  rewrite incoming_values_inc, outgoing_values_out by exact Hloc.
  split; apply sumZ_nonneg; intros z Hz;
    apply list_elem_of_fmap in Hz as (r & -> & Hr);
    apply list_elem_of_filter in Hr as [_ Hr];
    apply elem_of_small_window in Hr as (i & Hi); by apply (Hpos i).
Qed.

(** X11: when no flow carries a negative packet count, the tallies are not
    negative and the long tally of a host is at least its short tally, for
    packets in and for packets out; a host whose long packets out are zero
    then has zero short packets out too. *)
Theorem long_tally_dominates_short (local_ip_pattern : string → bool)
    (filtered_stream_data : DStream flow) (k : nat) (h : string)
    (s : short_stats) (l : long_stats) :
  (∀ i r, r ∈ filtered_stream_data i → 0 ≤ packetDeltaCount r) →
  short_at local_ip_pattern filtered_stream_data k !! h = Some s →
  long_at local_ip_pattern filtered_stream_data k !! h = Some l →
  0 ≤ short_inc_packets s ≤ item0 l ∧ 0 ≤ short_out_packets s ≤ item1 l.
Proof.
  intros Hpos Hs Hl.
  destruct (short_at_nonneg _ _ _ _ _ Hpos Hs) as [Hi Ho].
  rewrite long_at_lookup in Hl.
  apply reduce1_long_merge in Hl as [H0 H1].
  rewrite <- !list_fmap_compose, !tallies_of_sum in H0, H1.
  assert (Hk := horizon_intervals_current k).
  split; split; try assumption.
  - rewrite H0.
    change (short_inc_packets s)
      with (from_option short_inc_packets 0 (Some s)).
    rewrite <- Hs.
    apply (sumZ_ge_elem
             (λ j, from_option short_inc_packets 0
                     (short_at local_ip_pattern filtered_stream_data j !! h)));
      [|exact Hk].
    intros j _.
    destruct (short_at local_ip_pattern filtered_stream_data j !! h)
      as [s'|] eqn:Hj; [|reflexivity].
    simpl. by apply (short_at_nonneg _ _ _ _ _ Hpos Hj).
  - rewrite H1.
    change (short_out_packets s)
      with (from_option short_out_packets 0 (Some s)).
    rewrite <- Hs.
    apply (sumZ_ge_elem
             (λ j, from_option short_out_packets 0
                     (short_at local_ip_pattern filtered_stream_data j !! h)));
      [|exact Hk].
    intros j _.
    destruct (short_at local_ip_pattern filtered_stream_data j !! h)
      as [s'|] eqn:Hj; [|reflexivity].
    simpl. by apply (short_at_nonneg _ _ _ _ _ Hpos Hj).
Qed.

Ltac flows_of_stream Hr :=
  vm_compute in Hr;
  repeat (apply elem_of_cons in Hr as [->|Hr]; [simpl; lia|]);
  by apply elem_of_nil in Hr.

Lemma stream0_counts (i : nat) (r : flow) :
  r ∈ stream0 i → 0 ≤ packetDeltaCount r.
Proof.
  intros Hr.
  do 31 (destruct i as [|i]; [flows_of_stream Hr|]).
  flows_of_stream Hr.
Qed.

Lemma stream_lone_counts (i : nat) (r : flow) :
  r ∈ stream_lone i → 0 ≤ packetDeltaCount r.
Proof.
  intros Hr.
  do 31 (destruct i as [|i]; [flows_of_stream Hr|]).
  flows_of_stream Hr.
Qed.

Lemma long_tally_dominates_short_witness :
  0 ≤ short_inc_packets burst0 ≤ item0 (Tuple2 7150005 1000100)
  ∧ 0 ≤ short_out_packets burst0 ≤ item1 (Tuple2 7150005 1000100).
Proof.
  apply (long_tally_dominates_short in_10_10 stream0 1 "10.10.0.1").
  - apply stream0_counts.
  - vm_compute. reflexivity.
  - vm_compute. reflexivity.
Defined.

(** ** Floats that are not negative *)

Lemma Prim2SF_50 :
  Prim2SF 50%float = S754_finite false 7036874417766400 (-47).
Proof. vm_compute. reflexivity. Qed.

Lemma binary_round_aux_nonneg (m e : Z) (l : location) :
  nonneg_sf (binary_round_aux prec emax false m e l).
Proof.
  unfold binary_round_aux.
  destruct (shr_fexp prec emax m e l) as [mrs' e'].
  destruct (shr_fexp prec emax _ e' loc_Exact) as [mrs'' e''].
  destruct (shr_m mrs''); simpl; auto.
  destruct (_ <=? _); simpl; auto.
Qed.

Lemma binary_round_nonneg (p : positive) (e : Z) :
  nonneg_sf (binary_round prec emax false p e).
Proof.
  unfold binary_round.
  destruct (shl_align p e _) as [mz ez]. apply binary_round_aux_nonneg.
Qed.

Lemma binary_normalize_nonneg (z : Z) :
  0 <= z → nonneg_sf (binary_normalize prec emax z 0 false).
Proof.
  destruct z as [|p|p]; intros Hz; simpl; [reflexivity | | lia].
  apply binary_round_nonneg.
Qed.

Lemma SFldexp_nonneg (f : spec_float) (e : Z) :
  nonneg_sf f → nonneg_sf (SFldexp prec emax f e).
Proof.
  destruct f as [s|s| |s m e']; simpl; auto.
  intros ->. apply binary_round_nonneg.
Qed.

Lemma Prim2SF_SF2Prim_nonneg (sf : spec_float) :
  nonneg_sf sf → nonneg_sf (Prim2SF (SF2Prim sf)).
Proof.
  destruct sf as [s|s| |s m e]; simpl; intros H.
  - subst s. vm_compute. reflexivity.
  - subst s. vm_compute. reflexivity.
  - vm_compute. exact I.
  - subst s. rewrite Z_ldexp_spec, of_uint63_spec.
    match goal with
    | |- context [binary_normalize prec emax ?z 0 false] =>
        assert (Hz : 0 <= z) by apply Uint63.to_Z_bounded;
        generalize dependent z
    end.
    intros z Hz. by apply SFldexp_nonneg, binary_normalize_nonneg.
Qed.

Lemma float_of_int_nonneg (z : Z) (f : float) :
  0 <= z → float_of_int z = Ok f → nonneg_sf (Prim2SF f).
Proof.
  intros Hz. unfold float_of_int.
  pose proof (binary_normalize_nonneg z Hz) as Hn.
  destruct (binary_normalize prec emax z 0 false) as [s|s| |s m e] eqn:Hb;
    intros H; try discriminate.
  - assert (Hf : f = SF2Prim (S754_zero s)) by congruence.
    rewrite Hf. by apply Prim2SF_SF2Prim_nonneg.
  - assert (Hf : f = SF2Prim S754_nan) by congruence.
    rewrite Hf. by apply Prim2SF_SF2Prim_nonneg.
  - assert (Hf : f = SF2Prim (S754_finite s m e)) by congruence.
    rewrite Hf. by apply Prim2SF_SF2Prim_nonneg.
Qed.

Lemma SFdiv_nonneg (x y : spec_float) :
  nonneg_sf x → nonneg_sf y → nonneg_sf (SFdiv prec emax x y).
Proof.
  destruct x as [sx|sx| |sx mx ex], y as [sy|sy| |sy my ey]; simpl;
    intros Hx Hy; subst; simpl; auto.
  destruct (SFdiv_core_binary _ _ _ _ _ _) as [[mz ez] lz].
  apply binary_round_aux_nonneg.
Qed.

Lemma ratio_nonneg (i o : Z) (f : float) :
  0 <= i → 0 <= o → ratio i o = Ok f → nonneg_sf (Prim2SF f).
Proof.
  intros Hi Ho H. unfold ratio in H.
  apply bind_Ok in H as (fi & Hfi & H). unfold truediv in H.
  destruct (decide (o = 0)); [discriminate|].
  apply bind_Ok in H as (fo & Hfo & H). inversion H.
  rewrite div_spec. apply SFdiv_nonneg.
  - by apply (float_of_int_nonneg i).
  - by apply (float_of_int_nonneg o).
Qed.

Lemma Zdigits2_log2 (p : positive) :
  Zdigits2 (Zpos p) = Z.log2 (Zpos p) + 1.
Proof.
  simpl. rewrite digits2_pos_size.
  destruct p; simpl; rewrite ?Pos2Z.inj_succ; lia.
Qed.

Lemma Zdigits2_le (a b : Z) : 0 <= a <= b → Zdigits2 a <= Zdigits2 b.
Proof.
  intros [Ha Hab]. destruct a as [|p|p]; [apply Zdigits2_nonneg | | lia].
  destruct b as [|q|q]; [lia | | lia].
  rewrite !Zdigits2_log2. pose proof (Z.log2_le_mono _ _ Hab). lia.
Qed.

Lemma Zdigits2_mul_pow2 (p : positive) (n : Z) :
  0 <= n → Zdigits2 (Zpos p * 2 ^ n) = Zdigits2 (Zpos p) + n.
Proof.
  intros Hn.
  assert (Hpos : 0 < Zpos p * 2 ^ n) by (apply Z.mul_pos_pos; lia).
  destruct (Zpos p * 2 ^ n) as [|q|q] eqn:Hq; [lia | | lia].
  rewrite !Zdigits2_log2, <- Hq, Z.log2_mul_pow2 by lia. lia.
Qed.

Lemma Zdigits2_pos (m : Z) : 0 <= m → 0 < Zdigits2 m → 0 < m.
Proof. destruct m; simpl; lia. Qed.

Lemma shr_fexp_digits (m e : Z) (l : location) :
  0 <= m →
  Zdigits2 (shr_m (fst (shr_fexp prec emax m e l)))
  = Z.max 0 (Zdigits2 m - (snd (shr_fexp prec emax m e l) - e)).
Proof.
  intros Hm. pose proof (Zdigits2_nonneg m). unfold shr_fexp, shr.
  destruct (fexp prec emax (Zdigits2 m + e) - e) as [|n|n] eqn:Hn; simpl.
  - rewrite shr_record_of_loc_m. lia.
  - assert (H0 : 0 <= shr_m (shr_record_of_loc m l))
      by (rewrite shr_record_of_loc_m; exact Hm).
    destruct (iter_shr_1_digits n _ H0) as [_ D1].
    rewrite D1, shr_record_of_loc_m. lia.
  - rewrite shr_record_of_loc_m. lia.
Qed.

Lemma round_nearest_even_ge (m : Z) (l : location) :
  m <= round_nearest_even m l.
Proof.
  unfold round_nearest_even. destruct l as [|[| |]]; try lia.
  destruct (Z.even m); lia.
Qed.

(** Fifty times a float that is not negative is not below it. *)
Lemma SFmul_50_not_lt (x : spec_float) :
  nonneg_sf x → valid_binary x = true →
  SFltb (SFmul prec emax x (S754_finite false 7036874417766400 (-47))) x
  = false.
Proof.
  destruct x as [s|s| |s m e]; simpl; intros Hs Hv; subst; try reflexivity.
  unfold bounded, canonical_mantissa in Hv.
  apply andb_true_iff in Hv as [Hcan _]. apply Z.eqb_eq in Hcan.
  unfold binary_round_aux.
  set (M0 := Z.pos (m * 7036874417766400)).
  assert (HM0 : 0 <= M0) by (unfold M0; lia).
  assert (Hd0 : Z.pos (digits2_pos m) + 52 <= Zdigits2 M0).
  { change (Z.pos (digits2_pos m)) with (Zdigits2 (Z.pos m)).
    rewrite <- (Zdigits2_mul_pow2 m 52) by lia.
    apply Zdigits2_le. unfold M0. rewrite Pos2Z.inj_mul.
    change (2 ^ 52) with 4503599627370496. lia. }
  pose proof (shr_fexp_bounds M0 (e + -47) loc_Exact HM0) as (H1 & E1 & _).
  pose proof (shr_fexp_digits M0 (e + -47) loc_Exact HM0) as D1.
  destruct (shr_fexp prec emax M0 (e + -47) loc_Exact) as [mrs' e1].
  simpl in H1, E1, D1.
  set (M1r := round_nearest_even (shr_m mrs') (loc_of_shr_record mrs')).
  assert (HM1r : shr_m mrs' <= M1r) by apply round_nearest_even_ge.
  assert (HM1r0 : 0 <= M1r) by lia.
  assert (Hd1r : Zdigits2 (shr_m mrs') <= Zdigits2 M1r)
    by (apply Zdigits2_le; lia).
  pose proof (shr_fexp_bounds M1r e1 loc_Exact HM1r0) as (H2 & E2 & _).
  pose proof (shr_fexp_digits M1r e1 loc_Exact HM1r0) as D2.
  destruct (shr_fexp prec emax M1r e1 loc_Exact) as [mrs'' e2].
  simpl in H2, E2, D2.
  assert (Hfin : 0 < Zdigits2 (shr_m mrs'')
                 ∧ (e < e2 ∨ (e2 = e ∧ Z.pos (digits2_pos m)
                                        < Zdigits2 (shr_m mrs'')))).
  { pose proof (Pos2Z.is_pos (digits2_pos m)).
    unfold M0 in Hd0. simpl Zdigits2 in Hd0.
    unfold fexp, emin, prec, emax in *. lia. }
  destruct Hfin as [Hpos Hcmp].
  apply Zdigits2_pos in Hpos; [|exact H2].
  destruct (shr_m mrs'') as [|m'|m'] eqn:Hm'; [lia | | lia].
  destruct (e2 <=? emax - prec); [|reflexivity].
  unfold SFltb, SFcompare.
  destruct Hcmp as [Hgt | [-> Hdig]].
  - apply Z.compare_gt_iff in Hgt. rewrite Hgt. reflexivity.
  - rewrite Z.compare_refl.
    assert (Hlt : (m < m')%positive).
    { apply Pos.lt_nle. intros Hle.
      assert (Zdigits2 (Z.pos m') <= Zdigits2 (Z.pos m))
        by (apply Zdigits2_le; lia).
      simpl in *. lia. }
    apply Pos.gt_lt_iff in Hlt. unfold Pos.gt, Pos.compare in Hlt.
    rewrite Hlt. reflexivity.
Qed.

Lemma float_mul_50_not_lt (x : float) :
  nonneg_sf (Prim2SF x) → PrimFloat.ltb (x * 50)%float x = false.
Proof.
  intros Hx. rewrite ltb_spec, mul_spec, Prim2SF_50.
  apply SFmul_50_not_lt; [exact Hx | apply Prim2SF_valid].
Qed.

(** ** A host with no history *)

Lemma suspicious_same_ratio (h : string) (s : short_stats) (l : long_stats) :
  item0 l = short_inc_packets s → item1 l = short_out_packets s →
  0 <= short_inc_packets s → 0 <= short_out_packets s →
  suspicious (h, (s, l)) ≠ Ok true.
Proof.
  intros H0 H1 Hi Ho Hsus.
  apply suspicious_true in Hsus as (_ & sr & lr & Hsr & Hlr & Hgt).
  rewrite H0, H1, Hsr in Hlr. inversion Hlr. subst lr.
  unfold gt in Hgt. rewrite float_mul_50_not_lt in Hgt; [discriminate|].
  by apply (ratio_nonneg _ _ _ Hi Ho Hsr).
Qed.

Lemma omap_lone {A} (f : nat → option A) (js : list nat) (k : nat) (x : A) :
  NoDup js → k ∈ js → f k = Some x →
  (∀ j, j ∈ js → j ≠ k → f j = None) →
  omap f js = [x].
Proof.
  induction js as [|j js IH]; intros Hnd Hk Hfk Hnone;
    [by apply elem_of_nil in Hk|].
  apply NoDup_cons in Hnd as [Hj Hnd]. simpl.
  apply elem_of_cons in Hk as [<-|Hk].
  - rewrite Hfk. f_equal.
    assert (Hall : ∀ j, j ∈ js → f j = None).
    { intros j Hin. apply Hnone; [by apply list_elem_of_further|].
      intros ->. contradiction. }
    clear -Hall. induction js as [|j js IH]; [reflexivity|].
    simpl. rewrite (Hall j) by apply list_elem_of_here.
    apply IH. intros j' Hj'. apply Hall. by apply list_elem_of_further.
  - rewrite (Hnone j); [|apply list_elem_of_here|intros ->; contradiction].
    apply IH; auto. intros j' Hj' Hne. apply Hnone; [|exact Hne].
    by apply list_elem_of_further.
Qed.

(** X12: with no negative packet count in the stream, a host whose only
    tally of the long window is the one of the base window just sealed gets
    no alert, whatever its traffic: both ratios are then one and the same,
    and a ratio that is not negative does not exceed 50 times itself. In
    particular the first base window of a host never sets off an alert. *)
Theorem lone_window_never_alerts (local_ip_pattern : string → bool)
    (filtered_stream_data : DStream flow) (k : nat) (h : string)
    (alerts : list alert) (a : alert) :
  (∀ i r, r ∈ filtered_stream_data i → 0 ≤ packetDeltaCount r) →
  (∀ j, j ∈ horizon_intervals k → j ≠ k →
        short_at local_ip_pattern filtered_stream_data j !! h = None) →
  tick local_ip_pattern filtered_stream_data k = Ok alerts →
  a ∈ alerts →
  dst_ip a ≠ h.
Proof.
  intros Hpos Hlone. rewrite tick_detect. intros Hdet Ha Hdst.
  apply (detect_elem _ _ _ Hdet) in Ha
    as (h' & s & l & Hs & Hl & _ & _ & Hsus & Hnew).
  apply new_entry_fields in Hnew as [Hh _]. simpl in Hh.
  assert (h' = h) by congruence. subst h'.
  rewrite long_at_lookup in Hl. unfold tallies_of in Hl.
  rewrite (omap_lone _ _ k s) in Hl.
  - simpl in Hl. inversion Hl. subst l.
    destruct (short_at_nonneg _ _ _ _ _ Hpos Hs) as [Hi Ho].
    by apply (suspicious_same_ratio h s (Tuple3 s)).
  - apply NoDup_seq.
  - apply horizon_intervals_current.
  - exact Hs.
  - intros j Hj Hne. rewrite Hdst. by apply Hlone.
Qed.

Lemma lone_window_never_alerts_witness :
  Forall (λ a, dst_ip a ≠ "10.10.0.1") [].
Proof.
  apply Forall_forall. intros a Ha.
  apply (lone_window_never_alerts in_10_10 stream_lone 1 "10.10.0.1" [] a).
  - apply stream_lone_counts.
  - intros j Hj Hne. apply elem_of_horizon_intervals in Hj.
    assert (j = 0%nat) by lia. subst j. vm_compute. reflexivity.
  - vm_compute. reflexivity.
  - exact Ha.
Defined.

(** The burst of [stream_lone] passes the volume test and is not reported:
    its long tally is its short tally. *)
Example stream_lone_tick :
  short_at in_10_10 stream_lone 1 !! "10.10.0.1"
    = Some {| short_inc_packets := 150000; short_out_packets := 100;
              short_source_IPv4s := {[ "8.8.8.8" ]} |}
  ∧ tick in_10_10 stream_lone 1 = Ok [].
Proof. vm_compute. auto. Qed.

(** ** The message of a tick *)

Lemma string_app_cons (c : ascii) (s t : string) :
  String c s +:+ t = String c (s +:+ t).
Proof. reflexivity. Qed.

Lemma string_app_nil_l (s : string) : EmptyString +:+ s = s.
Proof. reflexivity. Qed.

Lemma string_app_nil_r (s : string) : s +:+ EmptyString = s.
Proof.
  induction s as [|c s IH]; [reflexivity|].
  by rewrite string_app_cons, IH.
Qed.

Lemma string_app_assoc (s t u : string) : (s +:+ t) +:+ u = s +:+ (t +:+ u).
Proof.
  induction s as [|c s IH]; [reflexivity|].
  by rewrite !string_app_cons, IH.
Qed.

Lemma splitlines_from_line (line s rest : string) :
  has_newline s = false →
  splitlines_from line (s +:+ newline +:+ rest)
  = (line +:+ s) :: splitlines_from EmptyString rest.
Proof.
  revert line. induction s as [|c s IH]; intros line Hs.
  - rewrite string_app_nil_l, string_app_nil_r. reflexivity.
  - simpl in Hs. rewrite string_app_cons. simpl.
    destruct (Ascii.eqb c "010"); [discriminate|].
    rewrite (IH _ Hs), string_app_assoc. reflexivity.
Qed.

Section emission_lemmas.
Variable dumps : alert → string.

Lemma results_of_acc (acc : string) (alerts : list alert) :
  foldl (λ results new_entry, results +:+ (dumps new_entry +:+ newline))
        acc alerts
  = acc +:+ results_of dumps alerts.
Proof.
  unfold results_of. revert acc.
  induction alerts as [|a alerts IH]; intros acc.
  - simpl. by rewrite string_app_nil_r.
  - simpl. rewrite (IH (acc +:+ _)), (IH (EmptyString +:+ _)).
    by rewrite string_app_nil_l, string_app_assoc.
Qed.

Lemma results_of_cons (a : alert) (alerts : list alert) :
  results_of dumps (a :: alerts)
  = dumps a +:+ newline +:+ results_of dumps alerts.
Proof.
  unfold results_of at 1. simpl.
  by rewrite results_of_acc, string_app_nil_l, string_app_assoc.
Qed.

Lemma splitlines_results_of (alerts : list alert) :
  (∀ a, has_newline (dumps a) = false) →
  splitlines (results_of dumps alerts) = dumps <$> alerts.
Proof.
  intros Hd. induction alerts as [|a alerts IH]; [reflexivity|].
  rewrite results_of_cons. unfold splitlines.
  rewrite (splitlines_from_line _ _ _ (Hd a)), string_app_nil_l.
  by rewrite fmap_cons, <- IH.
Qed.

Lemma results_of_empty (alerts : list alert) :
  results_of dumps alerts = EmptyString ↔ alerts = [].
Proof.
  split; [|by intros ->].
  destruct alerts as [|a alerts]; [reflexivity|].
  rewrite results_of_cons. intros H.
  destruct (dumps a) as [|c s]; discriminate.
Qed.

End emission_lemmas.

(** X13: a call of [print_and_send] whose entries are all built sends one
    message, after those sent before, to the topic; the message is empty
    exactly when the RDD gave no entry, and when the encoder writes no line
    feed, splitting the message into lines gives back the encoded entries,
    one per alert, in order. *)
Theorem message_is_one_line_per_alert (dumps : alert → string)
    (rdd : list (string * (short_stats * long_stats)))
    (producer : list (string * string)) (topic : string)
    (alerts : list alert) :
  (∀ a, has_newline (dumps a) = false) →
  print_and_send rdd = Ok alerts →
  ∃ results,
    print_and_send_kafka dumps rdd producer topic
    = Ok (producer ++ [(topic, results)])
    ∧ splitlines results = dumps <$> alerts
    ∧ (results = EmptyString ↔ alerts = []).
Proof.
  intros Hd Hps. exists (results_of dumps alerts).
  unfold print_and_send_kafka. rewrite Hps. simpl.
  split; [reflexivity|]. split.
  - by apply splitlines_results_of.
  - apply results_of_empty.
Qed.

Lemma dumps_host_one_line (a : alert) : has_newline (dumps_host a) = false.
Proof.
  unfold dumps_host. by destruct (has_newline (dst_ip a)) eqn:H.
Qed.

Lemma message_is_one_line_per_alert_witness :
  ∃ results,
    print_and_send_kafka dumps_host rdd1 [] "detections"
    = Ok ([] ++ [("detections", results)])
    ∧ splitlines results = dumps_host <$> alerts1
    ∧ (results = EmptyString ↔ alerts1 = []).
Proof.
  apply (message_is_one_line_per_alert dumps_host rdd1 [] "detections"
           alerts1).
  - apply dumps_host_one_line.
  - vm_compute. reflexivity.
Defined.

(** ** The shape of the long tallies *)

(** X14: the long tally of a host is decided by its tallies in the base
    windows of the horizon: with none the host is absent, with one the long
    tally is that 3-tuple as it stands, with two or more it is the 2-tuple
    of their sums. *)
Theorem long_tally_by_number_of_windows (local_ip_pattern : string → bool)
    (filtered_stream_data : DStream flow) (k : nat) (h : string) :
  long_at local_ip_pattern filtered_stream_data k !! h =
    match tallies_of local_ip_pattern filtered_stream_data h
            (horizon_intervals k) with
    | [] => None
    | [s] => Some (Tuple3 s)
    | ts => Some (Tuple2 (sumZ (short_inc_packets <$> ts))
                         (sumZ (short_out_packets <$> ts)))
    end.
Proof.
  rewrite long_at_lookup, reduce1_long_merge_value.
  destruct (tallies_of _ _ h (horizon_intervals k)) as [|s [|s' ts]];
    [reflexivity | reflexivity |].
  rewrite <- !list_fmap_compose. reflexivity.
Qed.

(** ** When a tick raises *)

Lemma filterM_Raise_elem {A} (p : A → result bool) (l : list A) (x : A)
    (e : pyerr) :
  x ∈ l → p x = Raise e → ∃ e', filterM p l = Raise e'.
Proof.
  induction l as [|y l IH]; intros Hx Hp; [by apply elem_of_nil in Hx|].
  simpl. apply elem_of_cons in Hx as [<-|Hx].
  - rewrite Hp. simpl. eauto.
  - destruct (p y) as [b|e0]; simpl; [|eauto].
    destruct (IH Hx Hp) as (e' & ->). simpl. eauto.
Qed.

Lemma suspicious_Raise_iff (h : string) (s : short_stats) (l : long_stats) :
  (∃ e, suspicious (h, (s, l)) = Raise e) ↔
    100000 < short_inc_packets s
    ∧ ((∃ e, ratio (short_inc_packets s) (short_out_packets s) = Raise e)
       ∨ (∃ e, ratio (item0 l) (item1 l) = Raise e)).
Proof.
  rewrite suspicious_eq. change 100000 with minimal_incoming.
  destruct (minimal_incoming <? short_inc_packets s) eqn:Hmin.
  - apply Z.ltb_lt in Hmin.
    destruct (ratio (short_inc_packets s) (short_out_packets s)) as [sr|e1];
      simpl.
    + destruct (ratio (item0 l) (item1 l)) as [lr|e2]; simpl.
      * split.
        -- intros [e He]. discriminate.
        -- intros (_ & [[e He] | [e He]]); discriminate.
      * split; [|eauto]. intros _. split; [exact Hmin|]. right. eauto.
    + split; [|eauto]. intros _. split; [exact Hmin|]. left. eauto.
  - apply Z.ltb_ge in Hmin. split.
    + intros [e He]. discriminate.
    + intros (Hlt & _). lia.
Qed.

(** X15: a tick fails only with [OverflowError], and it fails exactly when
    some host of both mappings with nonzero packets out and more than
    100000 packets in has a ratio whose conversion to float overflows; the
    counts of a host at or below 100000 packets in, or left out by the zero
    guard, are never converted. *)
Theorem tick_raises_iff_overflow (short : gmap string short_stats)
    (long : gmap string long_stats) :
  ((∃ e, detect short long = Raise e) ↔
     ∃ h s l,
       short !! h = Some s ∧ long !! h = Some l
       ∧ short_out_packets s ≠ 0 ∧ item1 l ≠ 0
       ∧ 100000 < short_inc_packets s
       ∧ ((∃ e, ratio (short_inc_packets s) (short_out_packets s) = Raise e)
          ∨ (∃ e, ratio (item0 l) (item1 l) = Raise e)))
  ∧ (∀ e, detect short long = Raise e → e = OverflowError).
Proof.
  split; [|apply detect_Raise].
  split.
  - intros [e H]. unfold detect in H.
    apply bind_Raise in H as [H | (rdd & Hrdd & H)].
    + apply filterM_Raise in H as ([h [s l]] & Hin & H).
      apply elem_of_map_to_list, nonzero_union_lookup in Hin
        as (Hs & Hl & Hns & Hnl).
      exists h, s, l. repeat (split; [assumption|]).
      apply (suspicious_Raise_iff h). eauto.
    + destruct (print_and_send_total _ _ _ Hrdd) as (alerts & Hal).
      congruence.
  - intros (h & s & l & Hs & Hl & Hns & Hnl & Hmin & Hr).
    destruct (proj2 (suspicious_Raise_iff h s l) (conj Hmin Hr)) as [e He].
    destruct (filterM_Raise_elem suspicious
                (map_to_list (nonzero_union short long)) (h, (s, l)) e)
      as (e' & He'); [|exact He|].
    + apply elem_of_map_to_list, nonzero_union_lookup. auto.
    + exists e'. unfold detect, windows_union_filtered. by rewrite He'.
Qed.

Lemma tick_raises_iff_overflow_witness :
  ∃ e, detect short_huge long_huge = Raise e.
Proof.
  apply (tick_raises_iff_overflow short_huge long_huge).
  exists "10.10.0.9",
         {| short_inc_packets := 2 ^ 1024; short_out_packets := 1;
            short_source_IPv4s := ∅ |},
         (Tuple2 1 1).
  split; [vm_compute; reflexivity|]. split; [vm_compute; reflexivity|].
  split; [simpl; lia|]. split; [simpl; lia|]. split; [simpl; lia|].
  left. exists OverflowError. vm_compute. reflexivity.
Defined.

(** The host 10.10.0.1 of [short1] has its alert in [alerts1]; with the
    overflowing host beside it the tick has none. *)
Example overflow_hides_other_alerts :
  detect short1 long1 = Ok alerts1
  ∧ detect short_huge long_huge = Raise OverflowError.
Proof. vm_compute. auto. Qed.

(** ** A tick that brings and evicts nothing *)

Lemma short_at_empty (local_ip_pattern : string → bool)
    (filtered_stream_data : DStream flow) (j : nat) :
  small_window filtered_stream_data j = [] →
  map_to_list (short_at local_ip_pattern filtered_stream_data j) = [].
Proof.
  intros H. unfold short_at. rewrite H. apply map_to_list_empty.
Qed.

(** X16: a base window without flows leaves the long mapping as the tick
    before left it, provided the base window that leaves the horizon, if
    one does, had no flows either. *)
Theorem empty_window_keeps_long_mapping (local_ip_pattern : string → bool)
    (filtered_stream_data : DStream flow) (k : nat) :
  small_window filtered_stream_data (S k) = [] →
  ((240 ≤ S k)%nat →
   small_window filtered_stream_data (S k - 240)%nat = []) →
  long_at local_ip_pattern filtered_stream_data (S k)
  = long_at local_ip_pattern filtered_stream_data k.
Proof.
  intros Hnew Hold. unfold long_at. f_equal.
  rewrite !union_long_flows_eq. unfold horizon_intervals.
  rewrite horizon_240.
  destruct (le_lt_dec 240 (S k)) as [Hfull|Hyoung].
  - replace (S k + 1 - 240)%nat with (S (S k - 240)) by lia.
    replace (k + 1 - 240)%nat with (S k - 240)%nat by lia.
    replace (240 `min` (S k + 1))%nat with (239 + 1)%nat by lia.
    replace (240 `min` (k + 1))%nat with (S 239) by lia.
    rewrite seq_app, map_app, concat_app. cbn [seq map concat].
    replace (S (S k - 240) + 239)%nat with (S k) by lia.
    rewrite (short_at_empty _ _ _ Hnew), (short_at_empty _ _ _ (Hold Hfull)).
    by rewrite app_nil_r.
  - replace (S k + 1 - 240)%nat with 0%nat by lia.
    replace (k + 1 - 240)%nat with 0%nat by lia.
    replace (240 `min` (S k + 1))%nat with (S k + 1)%nat by lia.
    replace (240 `min` (k + 1))%nat with (S k) by lia.
    rewrite seq_app, map_app, concat_app. cbn [seq map concat].
    rewrite Nat.add_0_l, (short_at_empty _ _ _ Hnew).
    by rewrite !app_nil_r.
Qed.

Lemma empty_window_keeps_long_mapping_witness :
  long_at in_10_10 stream0 2 = long_at in_10_10 stream0 1.
Proof.
  apply (empty_window_keeps_long_mapping in_10_10 stream0 1).
  - vm_compute. reflexivity.
  - intros H. lia.
Defined.
